(** * secman: the secrets-file rewriting passes of [secman.py]

    A shallow embedding of [delete_secret], [encrypt_secrets] and
    [decrypt_secrets], together with the Python string and regular-expression
    primitives they rely on, and the properties of the rewriting passes.

    Modelling conventions
    - A Python [str] is a [list ascii]; a character stands for a code point
      below 256.
    - The secrets file is its text content.  [open(path, "w")] truncates it,
      every [file.write] appends, and leaving the [with] block (normally, by
      [sys.exit] or by an exception) commits what was written so far.
    - The cipher ([crypto_utils]), the hash and base64 encoders, the process
      environment and the wall clock are collaborators, see [Collaborators].
    - Console output is not modelled. *)

From Stdlib Require Import Ascii String Bool Arith Lia List ListSet.
Import ListNotations.

Local Open Scope list_scope.

(* ================================================================== *)
(** ** Python [str] primitives *)

Definition text := list ascii.

Definition lit (s : string) : text := list_ascii_of_string s.

Definition LF : ascii := "010"%char.
Definition CR : ascii := "013"%char.
Definition dquote : ascii := "034"%char.
Definition squote : ascii := "039"%char.
Definition equals : ascii := "="%char.
Definition hash : ascii := "#"%char.

Definition text_eq_dec : forall a b : text, {a = b} + {a <> b} :=
  list_eq_dec ascii_dec.

(** [a == b] on strings. *)
Definition text_eqb (a b : text) : bool :=
  if text_eq_dec a b then true else false.

(** [str.isspace] on one character: TAB..CR, FS..US, SPACE, NEL, NBSP. *)
Definition isspace (c : ascii) : bool :=
  let n := nat_of_ascii c in
  ((9 <=? n) && (n <=? 13)) || ((28 <=? n) && (n <=? 32))
  || (n =? 133) || (n =? 160).

Fixpoint dropwhile (p : ascii -> bool) (s : text) : text :=
  match s with
  | [] => []
  | c :: s' => if p c then dropwhile p s' else s
  end.

Fixpoint takewhile (p : ascii -> bool) (s : text) : text :=
  match s with
  | [] => []
  | c :: s' => if p c then c :: takewhile p s' else []
  end.

Definition lstrip_by (p : ascii -> bool) (s : text) : text := dropwhile p s.

Definition rstrip_by (p : ascii -> bool) (s : text) : text :=
  rev (dropwhile p (rev s)).

Definition strip_by (p : ascii -> bool) (s : text) : text :=
  rstrip_by p (lstrip_by p s).

(** [s.strip()] *)
Definition strip (s : text) : text := strip_by isspace s.

(** [s.strip(chars)] *)
Definition strip_chars (chars : text) (s : text) : text :=
  strip_by (fun c => existsb (Ascii.eqb c) chars) s.

(** [s.startswith(prefix)] *)
Fixpoint startswith (prefix s : text) : bool :=
  match prefix, s with
  | [], _ => true
  | _ :: _, [] => false
  | p :: prefix', c :: s' => Ascii.eqb p c && startswith prefix' s'
  end.

(** [s.endswith(suffix)] *)
Definition endswith (suffix s : text) : bool :=
  startswith (rev suffix) (rev s).

(** [c in s] for a one-character [c]. *)
Definition contains (c : ascii) (s : text) : bool := existsb (Ascii.eqb c) s.

Definition not_equals (c : ascii) : bool := negb (Ascii.eqb c equals).

(** [s.split("=")[0]]: the text before the first ["="], or all of [s]. *)
Definition split_eq_head (s : text) : text := takewhile not_equals s.

(** [s.split("=", 1)]: one or two pieces. *)
Definition split_eq_1 (s : text) : list text :=
  match dropwhile not_equals s with
  | [] => [takewhile not_equals s]
  | _ :: after => [takewhile not_equals s; after]
  end.

(** [s[-n:]] *)
Definition last_n (n : nat) (s : text) : text := skipn (length s - n) s.

(** [s[:-n]] for [n > 0] *)
Definition drop_last_n (n : nat) (s : text) : text := firstn (length s - n) s.

(** Text-mode reading translates ["\r\n"] and ["\r"] to ["\n"]. *)
Fixpoint universal_newlines (s : text) : text :=
  match s with
  | [] => []
  | c :: s' =>
      if Ascii.eqb c CR then
        LF :: match s' with
              | [] => []
              | d :: s'' =>
                  if Ascii.eqb d LF then universal_newlines s''
                  else universal_newlines s'
              end
      else c :: universal_newlines s'
  end.

(** Cut a text after every ["\n"], keeping the terminators. *)
Fixpoint split_keepends (s : text) : list text :=
  match s with
  | [] => []
  | c :: s' =>
      if Ascii.eqb c LF then [c] :: split_keepends s'
      else match split_keepends s' with
           | [] => [[c]]
           | l :: ls => (c :: l) :: ls
           end
  end.

(** [open(path, "r").readlines()] on a file whose content is [content]. *)
Definition readlines (content : text) : list text :=
  split_keepends (universal_newlines content).

(* ================================================================== *)
(** ** Regular expressions

    The fragment of Python's [re] that the module uses, with the semantics of
    its backtracking matcher: alternatives are tried in priority order and the
    first complete match wins.  A greedy loop tries the longest repetition
    first, a lazy loop the shortest. *)

Inductive regex : Type :=
| Eps                             (* the empty pattern *)
| Bol                             (* [^] *)
| Chr (p : ascii -> bool)         (* one character of a class *)
| Lit (u : text)                  (* a literal text *)
| Star (p : ascii -> bool)        (* [C*], greedy, for a class [C] *)
| LazyStar (p : ascii -> bool)    (* [C*?], lazy, for a class [C] *)
| Cat (r1 r2 : regex)             (* concatenation *)
| Group (r : regex).              (* a capturing group *)

(** A pattern written as the sequence of its items. *)
Definition seq (rs : list regex) : regex := fold_right Cat Eps rs.

Section Matcher.

Variable R : Type.

(** [C*] followed by the continuation [k]: as many characters as possible,
    then fewer. *)
Fixpoint star_greedy (p : ascii -> bool) (s : text) (k : text -> option R)
  : option R :=
  match s with
  | [] => k []
  | c :: s' =>
      if p c then
        match star_greedy p s' k with
        | Some r => Some r
        | None => k s
        end
      else k s
  end.

(** [C*?] followed by the continuation [k]: as few characters as possible,
    then more. *)
Fixpoint star_lazy (p : ascii -> bool) (s : text) (k : text -> option R)
  : option R :=
  match k s with
  | Some r => Some r
  | None =>
      match s with
      | [] => None
      | c :: s' => if p c then star_lazy p s' k else None
      end
  end.

(** The text searched, of which [s] below is always a tail. *)
Variable subject : text.

(** Match [r] at the head of [s], then continue with [k] on what is left;
    [groups] are the groups closed so far, in order. *)
Fixpoint run (r : regex) (s : text) (groups : list text)
  (k : text -> list text -> option R) {struct r} : option R :=
  match r with
  | Eps => k s groups
  | Bol => if length s =? length subject then k s groups else None
  | Chr p =>
      match s with
      | c :: s' => if p c then k s' groups else None
      | [] => None
      end
  | Lit u => if startswith u s then k (skipn (length u) s) groups else None
  | Star p => star_greedy p s (fun s' => k s' groups)
  | LazyStar p => star_lazy p s (fun s' => k s' groups)
  | Cat r1 r2 => run r1 s groups (fun s' groups' => run r2 s' groups' k)
  | Group r0 =>
      run r0 s groups
        (fun s' groups' =>
           k s' (groups' ++ [firstn (length s - length s') s]))
  end.

End Matcher.

Arguments star_greedy {R} p s k.
Arguments star_lazy {R} p s k.
Arguments run {R} subject r s groups k.

(** The end of the pattern: the match is its groups. *)
Definition accept (s : text) (groups : list text) : option (list text) :=
  Some groups.

(** [pattern.match(line)] *)
Definition re_match (r : regex) (line : text) : option (list text) :=
  run line r line [] accept.

Fixpoint search_from (r : regex) (subject s : text) : option (list text) :=
  match run subject r s [] accept with
  | Some m => Some m
  | None =>
      match s with
      | [] => None
      | _ :: s' => search_from r subject s'
      end
  end.

(** [re.search(pattern, line)]: the leftmost start position that matches. *)
Definition re_search (r : regex) (line : text) : option (list text) :=
  search_from r line line.

(** [match.group(i)] for [i >= 1] *)
Definition group (m : list text) (i : nat) : text := nth (pred i) m [].

(** [[a-zA-Z_]] *)
Definition is_word_start (c : ascii) : bool :=
  let n := nat_of_ascii c in
  ((65 <=? n) && (n <=? 90)) || ((97 <=? n) && (n <=? 122)) || (n =? 95).

(** [[a-zA-Z0-9_]] *)
Definition is_word (c : ascii) : bool :=
  let n := nat_of_ascii c in
  is_word_start c || ((48 <=? n) && (n <=? 57)).

(** The class of the two quote characters, double and single. *)
Definition is_quote (c : ascii) : bool :=
  Ascii.eqb c dquote || Ascii.eqb c squote.

Definition is_equals (c : ascii) : bool := Ascii.eqb c equals.

(** [.]: any character but the line feed. *)
Definition not_LF (c : ascii) : bool := negb (Ascii.eqb c LF).

Definition ENCRYPTED_SUFFIX : text := lit "_ENCRYPTED".

(** The [encrypted_pattern] of [encrypt_secrets]:
    [^\s*([a-zA-Z_][a-zA-Z0-9_]* )_ENCRYPTED\s*=] (a blank added before the
    closing parenthesis). *)
Definition encrypted_pattern_of_encrypt : regex :=
  seq [Bol; Star isspace;
       Group (seq [Chr is_word_start; Star is_word]);
       Lit ENCRYPTED_SUFFIX; Star isspace; Chr is_equals].

(** The [encrypted_pattern] of [decrypt_secrets]:
    [^\s*([a-zA-Z_][a-zA-Z0-9_]*_ENCRYPTED)\s*=]. *)
Definition encrypted_pattern_of_decrypt : regex :=
  seq [Bol; Star isspace;
       Group (seq [Chr is_word_start; Star is_word; Lit ENCRYPTED_SUFFIX]);
       Star isspace; Chr is_equals].

(** The pattern that [decrypt_secrets] searches for in a line:
    [([a-zA-Z_][a-zA-Z0-9_]* )\s*=\s*Q(.*?)Q] where [Q] is the class of the
    two quote characters (a blank added before the first closing
    parenthesis). *)
Definition secret_pattern : regex :=
  seq [Group (seq [Chr is_word_start; Star is_word]);
       Star isspace; Chr is_equals; Star isspace; Chr is_quote;
       Group (LazyStar not_LF); Chr is_quote].

(* ================================================================== *)
(** ** Constants of the module *)

Definition HEADER_DISCLAIMER : text :=
  lit "# Generated by secman.py. Do not edit manually, unless you know what you are doing".

Definition MASTER_KEY_ENV : text := lit "MASTER_KEY_ENV".

(* ================================================================== *)
(** ** Collaborators and outcomes *)

(** What the module imports or reads from its process. *)
Class Collaborators : Type := {
  (** [os.getenv(name)] *)
  getenv : text -> option text;
  (** The [k]-th call, within one pass, of
      [crypto_utils.encrypt_value(value, key)]: the cipher text need not be
      the same from one call to the next (a Fernet token carries a random
      vector and a timestamp).  The key is whatever Python value the caller
      holds ([None] or a string); [None] as a result stands for a raised
      [Exception]. *)
  encrypt_value : nat -> text -> option text -> option text;
  (** [crypto_utils.decrypt_value(value, key)], [None] when it raises. *)
  decrypt_value : text -> text -> option text;
  (** [hashlib.sha512(s.encode()).digest()] *)
  sha512 : text -> text;
  (** [base64.b64encode(d).decode()] *)
  b64encode : text -> text;
  (** The [k]-th reading, within one call, of
      [datetime.datetime.now().strftime("%Y-%m-%d %H:%M:%S")]. *)
  now : nat -> text
}.

Inductive exn : Type :=
| IndexError
| ValueError
| CryptoError.

(** How a call ends: it returns, it calls [sys.exit(code)], or it raises. *)
Inductive outcome (A : Type) : Type :=
| Returned (a : A)
| Exited (code : nat)
| Raised (e : exn).

Arguments Returned {A} a.
Arguments Exited {A} code.
Arguments Raised {A} e.

(** What one iteration of a rewriting loop does. *)
Inductive step (S : Type) : Type :=
| Wrote (chunk : text) (s : S)
| Stop (code : nat)
| Throw (e : exn).

Arguments Wrote {S} chunk s.
Arguments Stop {S} code.
Arguments Throw {S} e.

(** [file.write(chunk)] followed by the rest of the pass. *)
Definition written {A : Type} (chunk : text) (k : outcome A * text)
  : outcome A * text :=
  (fst k, chunk ++ snd k).

(** [decrypt_secrets] returns [None] on both of its paths; the model's return
    value tells them apart. *)
Inductive decrypt_report : Type :=
| KeyNotSet   (* printed "Error: ... environment variable is not set" *)
| Rewritten.

(** Python truthiness of [master_key]. *)
Definition truthy (v : option text) : bool :=
  match v with
  | Some (_ :: _) => true
  | _ => false
  end.

(** [f"{master_key}"] *)
Definition format_value (v : option text) : text :=
  match v with
  | Some s => s
  | None => lit "None"
  end.

(** The comment-or-blank test shared by the passes. *)
Definition comment_or_blank (line : text) : bool :=
  startswith [hash] line || text_eqb (strip line) [].

(** [f'{name} = "{value}"\n'] *)
Definition assignment_line (name value : text) : text :=
  name ++ lit " = " ++ [dquote] ++ value ++ [dquote; LF].

(** The metadata comment and line end of an encrypted line:
    [f'    #{master_key_env},{signature[-8:]},{current_datetime}\n'] *)
Definition metadata_tail (master_key_env signature current_datetime : text)
  : text :=
  lit "    #" ++ master_key_env ++ lit "," ++ last_n 8 signature
  ++ lit "," ++ current_datetime ++ [LF].

(** [f'{name}_ENCRYPTED = "{value}"    #{env},{signature[-8:]},{datetime}\n'] *)
Definition encrypted_line
  (name value master_key_env signature current_datetime : text) : text :=
  name ++ ENCRYPTED_SUFFIX ++ lit " = " ++ [dquote] ++ value ++ [dquote]
  ++ metadata_tail master_key_env signature current_datetime.

Section Operations.

Context {W : Collaborators}.

(* ------------------------------------------------------------------ *)
(** *** [delete_secret] *)

Definition delete_line (secret_name line : text) : text :=
  if comment_or_blank line then line
  else if text_eqb (strip (split_eq_head line)) secret_name then []
  else line.

Fixpoint delete_lines (secret_name : text) (lines : list text) : text :=
  match lines with
  | [] => []
  | line :: rest => delete_line secret_name line ++ delete_lines secret_name rest
  end.

Definition delete_secret (content secret_name : text) : outcome unit * text :=
  let lines := readlines content in
  (Returned tt, delete_lines secret_name lines).

(* ------------------------------------------------------------------ *)
(** *** [encrypt_secrets] *)

(** The first loop: names that already have a [<name>_ENCRYPTED] line. *)
Fixpoint collect_encrypted_bases (lines : list text) (acc : set text)
  : set text :=
  match lines with
  | [] => acc
  | line :: rest =>
      match re_match encrypted_pattern_of_encrypt line with
      | Some m =>
          collect_encrypted_bases rest (set_add text_eq_dec (group m 1) acc)
      | None => collect_encrypted_bases rest acc
      end
  end.

(** The signature the source computes. *)
Definition signature_of (master_key : option text) : text :=
  b64encode (sha512 (format_value master_key)).

(** The body of the rewriting loop; the state is [count_encrypted], which is
    also the number of earlier calls of the cipher and of the clock. *)
Definition encrypt_line (encrypted_secrets : set text) (master_key_env : text)
  (master_key : option text) (line : text) (count_encrypted : nat)
  : step nat :=
  if startswith [hash] line || text_eqb (strip line) []
     || negb (contains equals line)
  then Wrote line count_encrypted
  else
    match split_eq_1 line with
    | [secret_name; secret_value] =>
        let secret_name := strip secret_name in
        let secret_value := strip_chars [dquote] (strip secret_value) in
        if text_eqb secret_name MASTER_KEY_ENV then Wrote line count_encrypted
        else if endswith ENCRYPTED_SUFFIX (strip secret_name)
        then Wrote line count_encrypted
        else if set_mem text_eq_dec secret_name encrypted_secrets
        then Wrote (assignment_line secret_name []) count_encrypted
        else
          match encrypt_value count_encrypted secret_value master_key with
          | None => Stop 1
          | Some encrypted_value =>
              let current_datetime := now count_encrypted in
              let signature := signature_of master_key in
              Wrote (assignment_line secret_name []
                     ++ encrypted_line secret_name encrypted_value
                          master_key_env signature current_datetime)
                    (S count_encrypted)
          end
    | _ => Throw ValueError
    end.

Fixpoint encrypt_lines (encrypted_secrets : set text) (master_key_env : text)
  (master_key : option text) (lines : list text) (count_encrypted : nat)
  : outcome nat * text :=
  match lines with
  | [] => (Returned count_encrypted, [])
  | line :: rest =>
      match encrypt_line encrypted_secrets master_key_env master_key line
              count_encrypted with
      | Wrote chunk count' =>
          written chunk
            (encrypt_lines encrypted_secrets master_key_env master_key rest
               count')
      | Stop code => (Exited code, [])
      | Throw e => (Raised e, [])
      end
  end.

(** The header written before the loop; [None] when [lines[0]] raises. *)
Definition header_chunk (lines : list text) : option text :=
  match lines with
  | [] => None
  | first :: _ =>
      if text_eqb (strip first) HEADER_DISCLAIMER then Some []
      else Some (HEADER_DISCLAIMER ++ [LF])
  end.

Definition encrypt_secrets (content master_key_env : text)
  (master_key : option text) : outcome nat * text :=
  let master_key :=
    if truthy master_key then master_key else getenv master_key_env in
  let lines := readlines content in
  let encrypted_secrets := collect_encrypted_bases lines (empty_set text) in
  match header_chunk lines with
  | None => (Raised IndexError, [])
  | Some header =>
      written header
        (encrypt_lines encrypted_secrets master_key_env master_key lines 0)
  end.

(* ------------------------------------------------------------------ *)
(** *** [decrypt_secrets] *)

Fixpoint collect_encrypted_names (lines : list text) (acc : set text)
  : set text :=
  match lines with
  | [] => acc
  | line :: rest =>
      match re_match encrypted_pattern_of_decrypt line with
      | Some m =>
          collect_encrypted_names rest (set_add text_eq_dec (group m 1) acc)
      | None => collect_encrypted_names rest acc
      end
  end.

(** The body of the rewriting loop (it has no state of its own). *)
Definition decrypt_line (encrypted_secrets : set text) (master_key : text)
  (line : text) : step unit :=
  if startswith [hash] line || text_eqb (strip line) [] then Wrote line tt
  else
    match re_search secret_pattern line with
    | Some m =>
        let secret_name := group m 1 in
        let encrypted_value := group m 2 in
        if text_eqb secret_name MASTER_KEY_ENV then Wrote line tt
        else if negb (endswith ENCRYPTED_SUFFIX secret_name)
                && negb (set_mem text_eq_dec (secret_name ++ ENCRYPTED_SUFFIX)
                           encrypted_secrets)
        then Wrote (assignment_line secret_name encrypted_value) tt
        else if endswith ENCRYPTED_SUFFIX secret_name then
          match decrypt_value encrypted_value master_key with
          | None => Throw CryptoError
          | Some decrypted_value =>
              Wrote (assignment_line (drop_last_n 10 secret_name)
                       decrypted_value) tt
          end
        else Wrote [] tt
    | None => Wrote [] tt
    end.

Fixpoint decrypt_lines (encrypted_secrets : set text) (master_key : text)
  (lines : list text) : outcome decrypt_report * text :=
  match lines with
  | [] => (Returned Rewritten, [])
  | line :: rest =>
      match decrypt_line encrypted_secrets master_key line with
      | Wrote chunk _ =>
          written chunk (decrypt_lines encrypted_secrets master_key rest)
      | Stop code => (Exited code, [])
      | Throw e => (Raised e, [])
      end
  end.

Definition decrypt_secrets (content master_key_env : text)
  (master_key : option text) : outcome decrypt_report * text :=
  let master_key := getenv master_key_env in
  match master_key with
  | None | Some [] => (Returned KeyNotSet, content)
  | Some key =>
      let lines := readlines content in
      let encrypted_secrets := collect_encrypted_names lines (empty_set text) in
      decrypt_lines encrypted_secrets key lines
  end.

End Operations.

(* ================================================================== *)
(** ** The scans that the patterns denote

    Each pattern of the module is equal to a scan without backtracking, see
    [re_match_encrypted_pattern_of_encrypt],
    [re_match_encrypted_pattern_of_decrypt] and [re_search_secret_pattern]:
    every greedy loop but one is followed by an item that shares no character
    with the loop's class, and the word loop before [_ENCRYPTED] can only
    stop where the suffix starts. *)

Definition not_quote (c : ascii) : bool := negb (is_quote c).


(** The shared scan of both [encrypted_pattern]s:
    [^\s*] then a word run that starts with [[a-zA-Z_]] and ends with
    [_ENCRYPTED] with at least one character before it, then [\s*=].
    The literal [_ENCRYPTED] must end the maximal word run, because the
    token after it is white space or ["="].  Returns the whole run. *)
Definition encrypted_run (line : text) : option text :=
  let s := dropwhile isspace line in
  let run := takewhile is_word s in
  match run with
  | [] => None
  | c :: _ =>
      if is_word_start c && (10 <? length run) && endswith ENCRYPTED_SUFFIX run
      then match dropwhile isspace (dropwhile is_word s) with
           | e :: _ => if Ascii.eqb e equals then Some run else None
           | [] => None
           end
      else None
  end.

(** [group(1)] of the [encrypted_pattern] of [encrypt_secrets]: the name
    without the suffix. *)
Definition encrypted_pattern_base (line : text) : option text :=
  option_map (drop_last_n 10) (encrypted_run line).

(** [group(1)] of the [encrypted_pattern] of [decrypt_secrets]: the name with
    the suffix. *)
Definition encrypted_pattern_full (line : text) : option text :=
  encrypted_run line.

(** A match of [secret_pattern] starting at the head of [s], as
    [(group(1), group(2))].  The lazy loop stops at the first quote and may
    not cross a line feed. *)
Definition assignment_match_here (s : text) : option (text * text) :=
  match s with
  | [] => None
  | c :: _ =>
      if is_word_start c then
        match dropwhile isspace (dropwhile is_word s) with
        | e :: r1 =>
            if Ascii.eqb e equals then
              match dropwhile isspace r1 with
              | q :: r2 =>
                  if is_quote q then
                    let value := takewhile not_quote r2 in
                    match dropwhile not_quote r2 with
                    | [] => None
                    | _ :: _ =>
                        if contains LF value then None
                        else Some (takewhile is_word s, value)
                    end
                  else None
              | [] => None
              end
            else None
        | [] => None
        end
      else None
  end.

(** The leftmost start position at which [secret_pattern] matches. *)
Fixpoint search_assignment (s : text) : option (text * text) :=
  match assignment_match_here s with
  | Some m => Some m
  | None =>
      match s with
      | [] => None
      | _ :: s' => search_assignment s'
      end
  end.

(** [\s*=], the end of both [encrypted_pattern]s. *)
Definition assigns (s : text) : bool :=
  match dropwhile isspace s with
  | e :: _ => Ascii.eqb e equals
  | [] => false
  end.

(** The part of [secret_pattern] after the name. *)
Definition value_tail : regex :=
  seq [Star isspace; Chr is_equals; Star isspace; Chr is_quote;
       Group (LazyStar not_LF); Chr is_quote].

(* ================================================================== *)
(** ** Vocabulary of the statements *)

(** No line break inside a text: neither ["\n"] nor ["\r"]. *)
Definition no_newline (s : text) : bool :=
  forallb (fun c => negb (Ascii.eqb c LF) && negb (Ascii.eqb c CR)) s.

(** What [readlines] returns: lines without inner line breaks, all of them
    terminated by ["\n"] except possibly the last. *)
Inductive proper_lines : list text -> Prop :=
| proper_nil : proper_lines []
| proper_last (l : text) :
    l <> [] -> no_newline l = true -> proper_lines [l]
| proper_cons (body : text) (ls : list text) :
    no_newline body = true -> proper_lines ls ->
    proper_lines ((body ++ [LF]) :: ls).

(** A text with clean ends: empty, or neither its first nor its last
    character is in the stripped class. *)
Definition clean_ends (p : ascii -> bool) (m : text) : Prop :=
  dropwhile p m = m /\ dropwhile p (rev m) = rev m.

Definition no_cr (s : text) : bool :=
  forallb (fun c => negb (Ascii.eqb c CR)) s.

(** A name of the shape [[a-zA-Z_][a-zA-Z0-9_]*]. *)
Definition is_identifier (n : text) : bool :=
  match n with
  | [] => false
  | c :: r => is_word_start c && forallb is_word r
  end.

(** The name and the value [encrypt_secrets] reads off a line that holds an
    ["="]: [line.split("=", 1)] stripped as the loop body strips it. *)
Definition secret_name_of (line : text) : text := strip (split_eq_head line).

Definition secret_value_of (line : text) : text :=
  strip_chars [dquote] (strip (tl (dropwhile not_equals line))).

(** The three ways [encrypt_secrets] treats a line: copied, replaced by an
    empty-valued line because the name is already encrypted, or encrypted. *)
Inductive treatment : Type :=
| Keep
| Skip (name : text)
| Fresh (name value : text).

Definition classify (encrypted_secrets : set text) (line : text) : treatment :=
  if comment_or_blank line || negb (contains equals line) then Keep
  else
    let name := secret_name_of line in
    if text_eqb name MASTER_KEY_ENV || endswith ENCRYPTED_SUFFIX name then Keep
    else if set_mem text_eq_dec name encrypted_secrets then Skip name
    else Fresh name (secret_value_of line).

Section Vocabulary.

Context {W : Collaborators}.

(** The lines a pass writes, up to the point where it stops. *)
Fixpoint rewritten_lines (E : set text) (mke : text) (key : option text)
  (lines : list text) (count : nat) : list text :=
  match lines with
  | [] => []
  | line :: rest =>
      match classify E line with
      | Keep => line :: rewritten_lines E mke key rest count
      | Skip name =>
          assignment_line name [] :: rewritten_lines E mke key rest count
      | Fresh name value =>
          match encrypt_value count value key with
          | None => []
          | Some c =>
              assignment_line name []
              :: encrypted_line name c mke (signature_of key) (now count)
              :: rewritten_lines E mke key rest (S count)
          end
      end
  end.

(** [count_encrypted] after the loop body has run on a line. *)
Definition count_after (E : set text) (line : text) (count : nat) : nat :=
  match classify E line with
  | Fresh _ _ => S count
  | _ => count
  end.

(** Every line satisfies [ready] at the count with which the loop reaches
    it. *)
Fixpoint all_lines (ready : text -> nat -> bool) (E : set text)
  (lines : list text) (count : nat) : bool :=
  match lines with
  | [] => true
  | line :: rest =>
      ready line count && all_lines ready E rest (count_after E line count)
  end.

(** A line is ready for an idempotent pass when, should the pass encrypt it,
    its name is an identifier and the cipher text stays on one line. *)
Definition encrypts_cleanly (E : set text) (key : option text) (line : text)
  (count : nat) : bool :=
  match classify E line with
  | Fresh name value =>
      is_identifier name
      && match encrypt_value count value key with
         | Some c => no_newline c
         | None => true
         end
  | _ => true
  end.




End Vocabulary.


(** A line that [decrypt_secrets] does not drop for want of a declaration:
    a comment, a blank line, or a line in which [secret_pattern] finds a
    match. *)
Definition recognized (line : text) : bool :=
  comment_or_blank line
  || match re_search secret_pattern line with
     | Some _ => true
     | None => false
     end.



(** A written line that a later pass will copy: either it is copied whatever
    the set of encrypted names is, or it is the empty-valued line of a name
    that is in [E] or has an encrypted line (property [P]). *)
Definition settled (E : set text) (P : text -> Prop) (l : text) : Prop :=
  (forall E2, classify E2 l = Keep) \/
  exists n, l = assignment_line n [] /\ is_identifier n = true /\
            n <> MASTER_KEY_ENV /\ endswith ENCRYPTED_SUFFIX n = false /\
            (set_In n E \/ P n).

(** Some line of [lines] is the encrypted line of the name [g]. *)
Definition has_encrypted_line (lines : list text) (g : text) : Prop :=
  exists l, In l lines /\ encrypted_pattern_base l = Some g.

(* ================================================================== *)
(** ** A sample set of collaborators and sample files

    The cipher of the sample puts a letter that depends on the call in front
    of the value and writes every character as two hexadecimal digits; it
    refuses a missing or empty key. *)

Definition hex_digits : text := lit "0123456789abcdef".

Definition hex_of_char (c : ascii) : text :=
  let n := nat_of_ascii c in
  [nth (n / 16) hex_digits "0"%char; nth (n mod 16) hex_digits "0"%char].

Definition hex (s : text) : text := flat_map hex_of_char s.

Fixpoint index_of (c : ascii) (s : text) : option nat :=
  match s with
  | [] => None
  | d :: s' => if Ascii.eqb c d then Some 0 else option_map S (index_of c s')
  end.

Fixpoint unhex (s : text) : option text :=
  match s with
  | [] => Some []
  | a :: b :: s' =>
      match index_of a hex_digits, index_of b hex_digits, unhex s' with
      | Some x, Some y, Some r => Some (ascii_of_nat (16 * x + y) :: r)
      | _, _, _ => None
      end
  | _ => None
  end.

Definition APP_KEY : text := lit "APP_KEY".

(** The letter that the sample cipher adds at its [k]-th call. *)
Definition nonce (k : nat) : text := [ascii_of_nat (65 + k mod 26)].

Definition sample : Collaborators := {|
  getenv := fun name =>
    if text_eqb name APP_KEY then Some (lit "s3cr3t-k3y") else None;
  encrypt_value := fun k value key =>
    match key with
    | Some (_ :: _) => Some (hex (nonce k ++ value))
    | _ => None
    end;
  decrypt_value := fun value key =>
    match unhex value with
    | Some (_ :: plain) => Some plain
    | _ => None
    end;
  sha512 := fun s => s;
  b64encode := hex;
  now := fun k => lit "2024-06-18 10:00:00"
|}.

(** [MASTER_KEY_ENV = "APP_KEY"] *)
Definition key_declaration : text := assignment_line MASTER_KEY_ENV APP_KEY.

(** The file of Scenario A: a key declaration and [FOO = "bar"]. *)
Definition scenario_a : text :=
  key_declaration ++ assignment_line (lit "FOO") (lit "bar").

(** Scenario A after one pass of [encrypt_secrets]. *)
Definition scenario_a_encrypted : text :=
  snd (encrypt_secrets (W := sample) scenario_a APP_KEY None).

(** A file with a line that is no declaration and a name that is no
    identifier. *)
Definition odd_file : text :=
  lit "db password = hunter2" ++ [LF] ++ lit "remember to rotate" ++ [LF].

(** [odd_file] after one pass of [encrypt_secrets]. *)
Definition odd_file_encrypted : text :=
  snd (encrypt_secrets (W := sample) odd_file APP_KEY None).

(** A variable name that the sample environment does not define. *)
Definition UNSET_KEY : text := lit "UNSET_KEY".

(** A file whose only line is [FOO = ""], with no encrypted counterpart. *)
Definition empty_secret_file : text := assignment_line (lit "FOO") [].

(** What [delete_secret] keeps: comments, blank lines, and the lines whose
    text before the first ["="], stripped, is not the given name. *)
Definition survives_delete (secret_name line : text) : bool :=
  comment_or_blank line || negb (text_eqb (secret_name_of line) secret_name).

(** Two plain secrets. *)
Definition two_secrets : text :=
  assignment_line (lit "A") (lit "x") ++ assignment_line (lit "B") (lit "y").

(** A file with a comment, a blank line, a key declaration, a secret that is
    already encrypted, a plain secret and a line that is no declaration. *)
Definition mixed_file : text :=
  lit "# project secrets" ++ [LF]
  ++ [LF]
  ++ key_declaration
  ++ assignment_line (lit "BAZ") []
  ++ encrypted_line (lit "BAZ") (hex (lit "Zqux")) APP_KEY
       (hex (lit "s3cr3t-k3y")) (lit "2024-06-17 09:30:00")
  ++ assignment_line (lit "FOO") (lit "bar")
  ++ lit "remember to rotate" ++ [LF].


(* ================================================================== *)
(** ** The other commands of the module

    [list_secrets], [set_master_key], [get_master_key], [convert_secrets]
    and the dispatch of [main], on the same model of the target file as the
    three passes above. *)

(** The pattern of [set_master_key]: [^\s*MASTER_KEY_ENV\s*=]. *)
Definition master_key_env_pattern : regex :=
  seq [Bol; Star isspace; Lit MASTER_KEY_ENV; Star isspace; Chr is_equals].

(** What [main] reads off the module that [load_config_file] returns:
    [psecrets.MASTER_KEY_ENV], which the target file may not define
    (the attribute access then raises [AttributeError]) and which is [None]
    or a string when it does. *)
Inductive attribute : Type :=
| Missing
| Value (v : option text).

(** What [main] relies on besides the [Collaborators] of the passes. *)
Class Runtime : Type := {
  (** The import inside [load_config_file("psecret", file)] on a target
      file of the given content: [None] when it raises, otherwise the
      [MASTER_KEY_ENV] of the imported module.  The import does not write to
      the target file. *)
  import_config : text -> option attribute;
  (** How [crypto_utils.generate_key()] ends; it is given no path. *)
  generate_key : outcome unit
}.

(** The command line as [argparse] hands it to [main]; [--file] is the file
    whose content the model threads. *)
Record arguments : Type := {
  arg_master_key_env : option text;      (* [-m NAME] *)
  arg_list : bool;                       (* [-l] *)
  arg_encrypt : bool;                    (* [-e] *)
  arg_decrypt : bool;                    (* [-d] *)
  arg_convert : option (text * text);    (* [-c OLD NEW] *)
  arg_key : bool                         (* [-k] *)
}.

(** How a run of [main] ends. *)
Inductive ending : Type :=
| Finished
| SysExit (code : nat)
| Uncaught (e : exn)
| AttributeError.

Definition ending_of {A : Type} (o : outcome A) : ending :=
  match o with
  | Returned _ => Finished
  | Exited code => SysExit code
  | Raised e => Uncaught e
  end.

(** The end of [main] after a command that may have rewritten the file. *)
Definition finish {A : Type} (r : outcome A * text) : ending * text :=
  (ending_of (fst r), snd r).

Section Commands.

Context {W : Collaborators}.

(* ------------------------------------------------------------------ *)
(** *** [load_config_file] *)

(** An import that raises is reported and ends the run with status 1. *)
Definition load_config_file {T : Runtime} (content : text)
  : outcome attribute :=
  match import_config content with
  | Some config => Returned config
  | None => Exited 1
  end.

(* ------------------------------------------------------------------ *)
(** *** [get_master_key] *)

Definition get_master_key (env_variable : option text) : outcome text :=
  match env_variable with
  | Some (c :: name) =>
      match getenv (c :: name) with
      | Some (k :: key) => Returned (k :: key)
      | _ => Exited 1
      end
  | _ => Exited 1
  end.

(* ------------------------------------------------------------------ *)
(** *** [list_secrets] *)

(** What the loop body prints for a line. *)
Definition list_line (line : text) : list text :=
  if startswith [hash] line || text_eqb (strip line) [] then []
  else [strip (split_eq_head line)].

(** The names that [list_secrets] prints, in order; the file is only
    read. *)
Definition list_secrets (content : text) : list text :=
  flat_map list_line (readlines content).

(* ------------------------------------------------------------------ *)
(** *** [set_master_key] *)

Definition set_master_key_line (master_key_env line : text) : text :=
  match re_match master_key_env_pattern line with
  | Some _ => assignment_line MASTER_KEY_ENV master_key_env
  | None => line
  end.

Fixpoint set_master_key_lines (master_key_env : text) (lines : list text)
  : text :=
  match lines with
  | [] => []
  | line :: rest =>
      set_master_key_line master_key_env line
      ++ set_master_key_lines master_key_env rest
  end.

Definition set_master_key (content master_key_env : text)
  : outcome unit * text :=
  let lines := readlines content in
  (Returned tt, set_master_key_lines master_key_env lines).

(* ------------------------------------------------------------------ *)
(** *** [convert_secrets] *)

(** The function prints that it is not implemented and exits with status 0
    before it opens the file. *)
Definition convert_secrets (content old_master_key new_master_key : text)
  : outcome unit * text :=
  (Exited 0, content).

(* ------------------------------------------------------------------ *)
(** *** [main] *)

(** One branch of [main] that first resolves the key through
    [get_master_key(psecrets.MASTER_KEY_ENV)] and then runs [command] with
    the variable's name and the key. *)
Definition with_master_key {A : Type} (psecrets : attribute) (content : text)
  (command : text -> text -> outcome A * text) : ending * text :=
  match psecrets with
  | Missing => (AttributeError, content)
  | Value env_variable =>
      match get_master_key env_variable with
      | Returned master_key =>
          finish (command (format_value env_variable) master_key)
      | Exited code => (SysExit code, content)
      | Raised e => (Uncaught e, content)
      end
  end.

(** The run of [main] on parsed arguments: how it ends and the content of
    the target file afterwards.  What the run prints is left out. *)
Definition main {T : Runtime} (args : arguments) (content : text)
  : ending * text :=
  match load_config_file content with
  | Exited code => (SysExit code, content)
  | Raised e => (Uncaught e, content)
  | Returned psecrets =>
      if truthy (arg_master_key_env args) then
        finish (set_master_key content (format_value (arg_master_key_env args)))
      else if arg_key args then (ending_of generate_key, content)
      else if arg_list args then
        let printed := list_secrets content in (Finished, content)
      else if arg_encrypt args then
        with_master_key psecrets content
          (fun master_key_env master_key =>
             encrypt_secrets content master_key_env None)
      else if arg_decrypt args then
        with_master_key psecrets content
          (fun master_key_env master_key =>
             decrypt_secrets content master_key_env (Some master_key))
      else
        match arg_convert args with
        | Some (old_master_key, new_master_key) =>
            with_master_key psecrets content
              (fun master_key_env master_key =>
                 convert_secrets content old_master_key new_master_key)
        | None => (Finished, content)
        end
  end.

End Commands.

(* ================================================================== *)
(** ** Vocabulary of the statements about the other commands *)

(** The scan that [master_key_env_pattern] denotes: white space, the
    literal [MASTER_KEY_ENV], white space, ["="]. *)
Definition is_key_declaration (line : text) : bool :=
  let s := dropwhile isspace line in
  startswith MASTER_KEY_ENV s && assigns (skipn 14 s).

(** The lines of a pass that [encrypt_secrets] encrypts. *)
Definition is_fresh (E : set text) (line : text) : bool :=
  match classify E line with
  | Fresh _ _ => true
  | _ => false
  end.

(** A line of a file without encrypted secrets, in the form in which the
    passes write it: a comment, a blank line, or [name = "value"] for an
    identifier that does not end in [_ENCRYPTED] and a value without quotes
    and line breaks. *)
Definition plain_line (line : text) : Prop :=
  comment_or_blank line = true \/
  exists n v, line = assignment_line n v /\
              is_identifier n = true /\
              endswith ENCRYPTED_SUFFIX n = false /\
              forallb not_quote v = true /\ no_newline v = true.

(** Sample runtime: the import reads the last declaration of
    [MASTER_KEY_ENV] off the file and never fails; the key generator
    returns. *)
Definition sample_runtime : Runtime := {|
  import_config := fun content =>
    match rev (filter (fun l => negb (comment_or_blank l)
                                && text_eqb (secret_name_of l) MASTER_KEY_ENV)
                 (readlines content)) with
    | [] => Some Missing
    | l :: _ => Some (Value (Some (secret_value_of l)))
    end;
  generate_key := Returned tt
|}.

(** The command lines of the sample runs. *)
Definition no_arguments : arguments := {|
  arg_master_key_env := None; arg_list := false; arg_encrypt := false;
  arg_decrypt := false; arg_convert := None; arg_key := false
|}.

Definition encrypt_arguments : arguments := {|
  arg_master_key_env := None; arg_list := false; arg_encrypt := true;
  arg_decrypt := false; arg_convert := None; arg_key := false
|}.

Definition decrypt_arguments : arguments := {|
  arg_master_key_env := None; arg_list := false; arg_encrypt := false;
  arg_decrypt := true; arg_convert := None; arg_key := false
|}.

(** A file that declares a key variable which the sample environment does
    not define. *)
Definition unset_key_file : text :=
  assignment_line MASTER_KEY_ENV UNSET_KEY
  ++ assignment_line (lit "FOO") (lit "bar").

(** A file with an encrypted line whose cipher text the sample cipher
    cannot read. *)
Definition damaged_file : text :=
  key_declaration
  ++ assignment_line (lit "A") (lit "x")
  ++ encrypted_line (lit "FOO") (lit "zz") APP_KEY
       (hex (lit "s3cr3t-k3y")) (lit "2024-06-18 10:00:00")
  ++ assignment_line (lit "B") (lit "y").

(** A file without encrypted secrets: a comment, a blank line, a key
    declaration and two plain secrets. *)
Definition plain_file : text :=
  lit "# project secrets" ++ [LF]
  ++ [LF]
  ++ key_declaration
  ++ two_secrets.

(* ================================================================== *)
(** ** Character classes *)

#[local] Arguments Ascii.eqb : simpl never.
#[local] Arguments isspace : simpl never.
#[local] Arguments is_word : simpl never.
#[local] Arguments is_word_start : simpl never.
#[local] Arguments is_quote : simpl never.

Ltac ascii_cases c :=
  destruct c as [[] [] [] [] [] [] [] []]; vm_compute; try reflexivity;
  try discriminate; try tauto.

Lemma word_start_is_word c : is_word_start c = true -> is_word c = true.
Proof. ascii_cases c. Qed.

Lemma word_not_space c : is_word c = true -> isspace c = false.
Proof. ascii_cases c. Qed.

Lemma word_not_equals c : is_word c = true -> not_equals c = true.
Proof. ascii_cases c. Qed.

Lemma space_not_equals c : isspace c = true -> not_equals c = true.
Proof. ascii_cases c. Qed.

Lemma word_not_newline c :
  is_word c = true -> Ascii.eqb c LF = false /\ Ascii.eqb c CR = false.
Proof. ascii_cases c; intros; split; reflexivity || discriminate. Qed.

Lemma text_eqb_eq a b : text_eqb a b = true <-> a = b.
Proof. unfold text_eqb. destruct (text_eq_dec a b); split; congruence. Qed.

Lemma text_eqb_refl a : text_eqb a a = true.
Proof. apply text_eqb_eq. reflexivity. Qed.

Lemma text_eqb_neq a b : text_eqb a b = false <-> a <> b.
Proof. unfold text_eqb. destruct (text_eq_dec a b); split; congruence. Qed.

(* ================================================================== *)
(** ** Scans *)

Lemma takewhile_dropwhile p s : takewhile p s ++ dropwhile p s = s.
Proof.
  induction s as [|c s IH]; simpl; [reflexivity|].
  destruct (p c); simpl; [now rewrite IH | reflexivity].
Qed.

Lemma takewhile_app p a b :
  forallb p a = true -> takewhile p (a ++ b) = a ++ takewhile p b.
Proof.
  induction a as [|c a IH]; simpl; intros H; [reflexivity|].
  apply andb_true_iff in H as [Hc Ha]. rewrite Hc. now rewrite IH.
Qed.

Lemma dropwhile_app p a b :
  forallb p a = true -> dropwhile p (a ++ b) = dropwhile p b.
Proof.
  induction a as [|c a IH]; simpl; intros H; [reflexivity|].
  apply andb_true_iff in H as [Hc Ha]. rewrite Hc. now apply IH.
Qed.

Lemma takewhile_all p s : forallb p (takewhile p s) = true.
Proof.
  induction s as [|c s IH]; simpl; [reflexivity|].
  destruct (p c) eqn:Hc; simpl; [now rewrite Hc | reflexivity].
Qed.

Lemma dropwhile_head p s c r : dropwhile p s = c :: r -> p c = false.
Proof.
  induction s as [|d s IH]; simpl; [discriminate|].
  destruct (p d) eqn:Hd; [exact IH|]. intros H; inversion H; subst. exact Hd.
Qed.

Lemma dropwhile_stop p c s : p c = false -> dropwhile p (c :: s) = c :: s.
Proof. simpl. now intros ->. Qed.

Lemma takewhile_stop p c s : p c = false -> takewhile p (c :: s) = [].
Proof. simpl. now intros ->. Qed.

Lemma dropwhile_all p s : forallb p s = true -> dropwhile p s = [].
Proof.
  intros H. rewrite <- (app_nil_r s). now rewrite dropwhile_app.
Qed.

Lemma forallb_weaken (p q : ascii -> bool) s :
  (forall c, p c = true -> q c = true) ->
  forallb p s = true -> forallb q s = true.
Proof.
  intros Hpq. induction s as [|c s IH]; simpl; [reflexivity|].
  intros H. apply andb_true_iff in H as [Hc Hs].
  now rewrite (Hpq _ Hc), IH.
Qed.

Lemma strip_by_core p a m b :
  forallb p a = true -> forallb p b = true -> clean_ends p m ->
  strip_by p (a ++ m ++ b) = m.
Proof.
  intros Ha Hb [Hl Hr]. unfold strip_by, lstrip_by, rstrip_by.
  rewrite dropwhile_app by assumption.
  destruct m as [|c m].
  - simpl. rewrite (dropwhile_all p b Hb). simpl.
    reflexivity.
  - assert (Hc : p c = false).
    { simpl in Hl. destruct (p c) eqn:E; [|reflexivity].
      exfalso. pose proof (takewhile_dropwhile p m) as T.
      assert (length (dropwhile p m) <= length m).
      { rewrite <- T at 2. rewrite length_app. lia. }
      rewrite Hl in H. simpl in H. lia. }
    rewrite <- app_comm_cons. rewrite dropwhile_stop by assumption.
    rewrite app_comm_cons, rev_app_distr.
    rewrite dropwhile_app by (rewrite forallb_forall in *; intros x Hx;
                              apply Hb; now apply in_rev).
    rewrite Hr. apply rev_involutive.
Qed.

Lemma dropwhile_clean p s : dropwhile p (dropwhile p s) = dropwhile p s.
Proof.
  destruct (dropwhile p s) as [|c r] eqn:E; [reflexivity|].
  apply dropwhile_stop. eapply dropwhile_head; eauto.
Qed.

Lemma dropwhile_suffix p s : exists a, s = a ++ dropwhile p s /\ forallb p a = true.
Proof.
  exists (takewhile p s). split; [symmetry; apply takewhile_dropwhile | apply takewhile_all].
Qed.

Lemma strip_by_decompose p s :
  exists a b, s = a ++ strip_by p s ++ b /\ forallb p a = true /\
              forallb p b = true /\ clean_ends p (strip_by p s).
Proof.
  unfold strip_by, lstrip_by, rstrip_by.
  destruct (dropwhile_suffix p s) as (a & Hs & Ha).
  set (t := dropwhile p s) in *.
  destruct (dropwhile_suffix p (rev t)) as (b' & Ht & Hb').
  set (u := dropwhile p (rev t)) in *.
  exists a, (rev b'). 
  assert (Et : t = rev u ++ rev b').
  { rewrite <- rev_app_distr, <- Ht. symmetry; apply rev_involutive. }
  split; [now rewrite <- Et|]. split; [assumption|]. split.
  { rewrite forallb_forall in *. intros x Hx. apply Hb'. now apply in_rev. }
  split.
  - destruct (rev u) as [|c r] eqn:E; [reflexivity|].
    apply dropwhile_stop. simpl in Et.
    unfold t in Et. eapply dropwhile_head; eauto.
  - rewrite rev_involutive. apply dropwhile_clean.
Qed.

Lemma strip_by_idem p s : strip_by p (strip_by p s) = strip_by p s.
Proof.
  destruct (strip_by_decompose p s) as (a & b & _ & _ & _ & Hc).
  rewrite <- (app_nil_r (strip_by p s)) at 1.
  apply (strip_by_core p [] (strip_by p s) []); auto.
Qed.

(* ================================================================== *)
(** ** [readlines] *)

Lemma no_newline_app a b :
  no_newline (a ++ b) = no_newline a && no_newline b.
Proof. unfold no_newline. apply forallb_app. Qed.

Lemma no_newline_cons c s :
  no_newline (c :: s) = true ->
  Ascii.eqb c LF = false /\ Ascii.eqb c CR = false /\ no_newline s = true.
Proof.
  unfold no_newline; simpl. intros H.
  apply andb_true_iff in H as [H1 H2]. apply andb_true_iff in H1 as [Ha Hb].
  apply negb_true_iff in Ha, Hb. auto.
Qed.

Lemma split_keepends_line body s :
  no_newline body = true ->
  split_keepends (body ++ LF :: s) = (body ++ [LF]) :: split_keepends s.
Proof.
  induction body as [|c body IH]; intros H; simpl.
  - reflexivity.
  - apply no_newline_cons in H as (Hc & _ & Hb).
    rewrite Hc, (IH Hb). reflexivity.
Qed.

Lemma split_keepends_last l :
  l <> [] -> no_newline l = true -> split_keepends l = [l].
Proof.
  induction l as [|c l IH]; intros Hne H; [congruence|].
  apply no_newline_cons in H as (Hc & _ & Hl). simpl. rewrite Hc.
  destruct l as [|d l]; [reflexivity|].
  rewrite IH by (congruence || assumption). reflexivity.
Qed.

Lemma split_keepends_concat ls :
  proper_lines ls -> split_keepends (concat ls) = ls.
Proof.
  induction 1 as [|l Hne Hl|body ls Hb Hls IH]; simpl.
  - reflexivity.
  - rewrite app_nil_r. now apply split_keepends_last.
  - rewrite <- app_assoc. simpl. rewrite split_keepends_line by assumption.
    now rewrite IH.
Qed.

Lemma concat_split_keepends s : concat (split_keepends s) = s.
Proof.
  induction s as [|c s IH]; simpl; [reflexivity|].
  destruct (Ascii.eqb c LF).
  - simpl. now rewrite IH.
  - destruct (split_keepends s) as [|l ls]; simpl in *.
    + now rewrite <- IH.
    + now rewrite IH.
Qed.

Lemma universal_newlines_id s : no_cr s = true -> universal_newlines s = s.
Proof.
  induction s as [|c s IH]; simpl; intros H; [reflexivity|].
  apply andb_true_iff in H as [Hc Hs]. apply negb_true_iff in Hc.
  rewrite Hc. now rewrite IH.
Qed.

Lemma universal_newlines_no_cr s : no_cr (universal_newlines s) = true.
Proof.
  assert (G : forall n s, length s <= n -> no_cr (universal_newlines s) = true).
  { clear s. induction n as [|n IH]; intros [|c s] Hlen; simpl in *;
      try reflexivity; try lia.
    destruct (Ascii.eqb c CR) eqn:Hc.
    - simpl. destruct s as [|d s]; [reflexivity|].
      simpl in Hlen.
      destruct (Ascii.eqb d LF); apply IH; simpl; lia.
    - simpl. rewrite Hc. simpl. apply IH. lia. }
  apply (G (length s)). lia.
Qed.

Lemma no_newline_no_cr s : no_newline s = true -> no_cr s = true.
Proof.
  apply forallb_weaken. intros c H. apply andb_true_iff in H. tauto.
Qed.

Lemma no_cr_app a b : no_cr (a ++ b) = no_cr a && no_cr b.
Proof. unfold no_cr. apply forallb_app. Qed.

Lemma proper_lines_no_cr ls : proper_lines ls -> no_cr (concat ls) = true.
Proof.
  induction 1 as [|l Hne Hl|body ls Hb Hls IH]; simpl.
  - reflexivity.
  - rewrite app_nil_r. now apply no_newline_no_cr.
  - rewrite !no_cr_app, IH, (no_newline_no_cr _ Hb). reflexivity.
Qed.

Lemma readlines_concat ls : proper_lines ls -> readlines (concat ls) = ls.
Proof.
  intros H. unfold readlines.
  rewrite universal_newlines_id by now apply proper_lines_no_cr.
  now apply split_keepends_concat.
Qed.

Lemma split_keepends_proper s : no_cr s = true -> proper_lines (split_keepends s).
Proof.
  induction s as [|c s IH]; simpl; intros H; [constructor|].
  apply andb_true_iff in H as [Hc Hs]. specialize (IH Hs).
  destruct (Ascii.eqb c LF) eqn:E.
  - apply Ascii.eqb_eq in E. subst c.
    apply (proper_cons [] _ eq_refl IH).
  - assert (Hcc : no_newline [c] = true).
    { unfold no_newline; simpl. now rewrite E, Hc. }
    destruct (split_keepends s) as [|l ls] eqn:El.
    + now constructor.
    + inversion IH as [|l0 Hne Hl|body ls0 Hb Hls]; subst.
      * constructor; [discriminate|].
        change (c :: l) with ([c] ++ l). now rewrite no_newline_app, Hcc, Hl.
      * change (c :: body ++ [LF]) with ((c :: body) ++ [LF]).
        constructor; [|assumption].
        change (c :: body) with ([c] ++ body).
        now rewrite no_newline_app, Hcc, Hb.
Qed.

Lemma readlines_proper content : proper_lines (readlines content).
Proof. apply split_keepends_proper, universal_newlines_no_cr. Qed.

Lemma concat_readlines content :
  no_cr content = true -> concat (readlines content) = content.
Proof.
  intros H. unfold readlines. rewrite universal_newlines_id by assumption.
  apply concat_split_keepends.
Qed.

(* ================================================================== *)
(** ** The loop body of [encrypt_secrets], case by case *)

Lemma contains_dropwhile line :
  contains equals line = true ->
  exists after, dropwhile not_equals line = equals :: after.
Proof.
  induction line as [|c s IH]; simpl; [discriminate|].
  unfold not_equals at 1. rewrite (Ascii.eqb_sym equals c).
  destruct (Ascii.eqb c equals) eqn:E; simpl.
  - intros _. apply Ascii.eqb_eq in E. subst c. now exists s.
  - exact IH.
Qed.

Lemma split_eq_1_pair line :
  contains equals line = true ->
  split_eq_1 line = [split_eq_head line; tl (dropwhile not_equals line)].
Proof.
  intros H. destruct (contains_dropwhile line H) as (after & E).
  unfold split_eq_1, split_eq_head. now rewrite E.
Qed.


Section EncryptBody.

Context {W : Collaborators}.

Lemma encrypt_line_classify E mke key line count :
  encrypt_line E mke key line count =
  match classify E line with
  | Keep => Wrote line count
  | Skip name => Wrote (assignment_line name []) count
  | Fresh name value =>
      match encrypt_value count value key with
      | None => Stop 1
      | Some encrypted_value =>
          Wrote (assignment_line name []
                 ++ encrypted_line name encrypted_value mke
                      (signature_of key) (now count))
                (S count)
      end
  end.
Proof.
  unfold encrypt_line, classify, comment_or_blank.
  destruct (startswith [hash] line || text_eqb (strip line) []) eqn:H1;
    simpl; [reflexivity|].
  destruct (contains equals line) eqn:H2; simpl; [|reflexivity].
  rewrite (split_eq_1_pair line H2).
  fold (secret_name_of line). fold (secret_value_of line).
  destruct (text_eqb (secret_name_of line) MASTER_KEY_ENV); simpl;
    [reflexivity|].
  unfold secret_name_of at 1. unfold strip at 1.
  rewrite strip_by_idem. fold (strip (split_eq_head line)).
  fold (secret_name_of line).
  destruct (endswith ENCRYPTED_SUFFIX (secret_name_of line)); [reflexivity|].
  destruct (set_mem text_eq_dec (secret_name_of line) E); reflexivity.
Qed.

Lemma encrypt_lines_written E mke key lines count :
  snd (encrypt_lines E mke key lines count)
  = concat (rewritten_lines E mke key lines count).
Proof.
  revert count. induction lines as [|line rest IH]; intros count; simpl;
    [reflexivity|].
  rewrite encrypt_line_classify.
  destruct (classify E line) as [|name|name value]; simpl.
  - now rewrite IH.
  - now rewrite IH.
  - destruct (encrypt_value count value key) as [c|]; simpl; [|reflexivity].
    rewrite IH. now rewrite <- app_assoc.
Qed.

End EncryptBody.

(* ================================================================== *)
(** ** Lines that start with a name *)

Lemma word_not_hash c : is_word c = true -> Ascii.eqb hash c = false.
Proof. ascii_cases c. Qed.

Lemma word_not_quote c : is_word c = true -> is_quote c = false.
Proof. ascii_cases c. Qed.

Lemma space_not_word c : isspace c = true -> is_word c = false.
Proof. ascii_cases c. Qed.

Lemma space_not_word_start c : isspace c = true -> is_word_start c = false.
Proof. ascii_cases c. Qed.

Lemma strip_by_nil p s : strip_by p s = [] -> forallb p s = true.
Proof.
  intros H. destruct (strip_by_decompose p s) as (a & b & Hs & Ha & Hb & _).
  rewrite H in Hs. simpl in Hs. rewrite Hs, forallb_app, Ha, Hb. reflexivity.
Qed.

Lemma identifier_words n : is_identifier n = true -> forallb is_word n = true.
Proof.
  destruct n as [|c r]; simpl; [discriminate|]. intros H.
  apply andb_true_iff in H as [Hc Hr].
  now rewrite (word_start_is_word _ Hc), Hr.
Qed.

Lemma identifier_head n :
  is_identifier n = true -> exists c r, n = c :: r /\ is_word_start c = true.
Proof.
  destruct n as [|c r]; simpl; [discriminate|]. intros H.
  apply andb_true_iff in H as [Hc _]. eauto.
Qed.

Lemma words_clean_ends run :
  forallb is_word run = true -> clean_ends isspace run.
Proof.
  intros H. split.
  - destruct run as [|c r]; [reflexivity|]. simpl in H.
    apply andb_true_iff in H as [Hc _].
    apply dropwhile_stop. now apply word_not_space.
  - destruct (rev run) as [|c r] eqn:E; [reflexivity|].
    apply dropwhile_stop. apply word_not_space.
    rewrite forallb_forall in H. apply H. apply in_rev. rewrite E. now left.
Qed.

Lemma words_no_newline run :
  forallb is_word run = true -> no_newline run = true.
Proof.
  apply forallb_weaken. intros c Hc.
  destruct (word_not_newline c Hc) as [-> ->]. reflexivity.
Qed.

Lemma comment_or_blank_word c s :
  is_word c = true -> comment_or_blank (c :: s) = false.
Proof.
  intros Hc. unfold comment_or_blank. apply orb_false_iff. split.
  - simpl. now rewrite (word_not_hash c Hc).
  - apply text_eqb_neq. intros H. apply strip_by_nil in H. simpl in H.
    rewrite (word_not_space c Hc) in H. discriminate.
Qed.

Lemma contains_app c a b : contains c (a ++ b) = contains c a || contains c b.
Proof. unfold contains. apply existsb_app. Qed.

Lemma contains_equals_not line :
  forallb not_equals line = true -> contains equals line = false.
Proof.
  induction line as [|c s IH]; simpl; [reflexivity|]. intros H.
  apply andb_true_iff in H as [Hc Hs]. rewrite (IH Hs).
  unfold not_equals in Hc. apply negb_true_iff in Hc.
  now rewrite Ascii.eqb_sym, Hc.
Qed.

(** The shape [ws name ws' = rest] that both name parsers agree on. *)
Lemma named_line_parts ws run ws' r :
  forallb isspace ws = true -> forallb isspace ws' = true ->
  forallb is_word run = true ->
  let line := ws ++ run ++ ws' ++ equals :: r in
  contains equals line = true /\ secret_name_of line = run
  /\ tl (dropwhile not_equals line) = r.
Proof.
  intros Hws Hws' Hrun line.
  assert (Hne : forallb not_equals (ws ++ run ++ ws') = true).
  { rewrite !forallb_app.
    rewrite (forallb_weaken _ _ _ space_not_equals Hws).
    rewrite (forallb_weaken _ _ _ word_not_equals Hrun).
    now rewrite (forallb_weaken _ _ _ space_not_equals Hws'). }
  assert (El : line = (ws ++ run ++ ws') ++ equals :: r).
  { unfold line. now rewrite <- !app_assoc. }
  split; [|split].
  - rewrite El. unfold contains. rewrite existsb_app. simpl.
    apply orb_true_r.
  - unfold secret_name_of, split_eq_head. rewrite El.
    rewrite takewhile_app by assumption.
    rewrite takewhile_stop by reflexivity. rewrite app_nil_r.
    apply strip_by_core; auto using words_clean_ends.
  - rewrite El. rewrite dropwhile_app by assumption.
    rewrite dropwhile_stop by reflexivity. reflexivity.
Qed.

Lemma startswith_app p r : startswith p (p ++ r) = true.
Proof.
  induction p as [|c p IH]; simpl; [reflexivity|].
  now rewrite Ascii.eqb_refl, IH.
Qed.

Lemma startswith_split p t :
  startswith p t = true -> t = p ++ skipn (length p) t.
Proof.
  revert t. induction p as [|c p IH]; intros [|d t]; simpl;
    try reflexivity; try discriminate.
  intros H. apply andb_true_iff in H as [Hc Hp].
  apply Ascii.eqb_eq in Hc. subst d. f_equal. now apply IH.
Qed.

Lemma endswith_app suffix a : endswith suffix (a ++ suffix) = true.
Proof. unfold endswith. rewrite rev_app_distr. apply startswith_app. Qed.

Lemma endswith_split suffix s :
  endswith suffix s = true -> s = drop_last_n (length suffix) s ++ suffix.
Proof.
  unfold endswith, drop_last_n. intros H.
  apply startswith_split in H.
  apply (f_equal (@rev ascii)) in H.
  rewrite rev_involutive, rev_app_distr, rev_involutive in H.
  rewrite length_rev in H.
  assert (Hlen : length suffix <= length s).
  { apply (f_equal (@length ascii)) in H. rewrite length_app in H. lia. }
  rewrite H at 1. f_equal.
  rewrite skipn_rev, rev_involutive. reflexivity.
Qed.

Lemma drop_last_n_app a suffix :
  drop_last_n (length suffix) (a ++ suffix) = a.
Proof.
  unfold drop_last_n. rewrite length_app.
  replace (length a + length suffix - length suffix) with (length a + 0) by lia.
  rewrite firstn_app_2. simpl. apply app_nil_r.
Qed.

Lemma forallb_firstn (p : ascii -> bool) k s :
  forallb p s = true -> forallb p (firstn k s) = true.
Proof.
  intros H. rewrite <- (firstn_skipn k s), forallb_app in H.
  apply andb_true_iff in H. tauto.
Qed.

(** What a match of the [encrypted_pattern]s says about the line. *)
Lemma encrypted_run_parts line run :
  encrypted_run line = Some run ->
  exists ws ws' r,
    line = ws ++ run ++ ws' ++ equals :: r /\
    forallb isspace ws = true /\ forallb isspace ws' = true /\
    forallb is_word run = true /\
    is_identifier (drop_last_n 10 run) = true /\
    run = drop_last_n 10 run ++ ENCRYPTED_SUFFIX.
Proof.
  unfold encrypted_run.
  destruct (dropwhile_suffix isspace line) as (ws & Hl & Hws).
  set (s := dropwhile isspace line) in *.
  destruct (dropwhile_suffix is_word s) as (run' & Hs & Hrun').
  pose proof (takewhile_dropwhile is_word s) as Htd.
  destruct (takewhile is_word s) as [|c t] eqn:Et; [discriminate|].
  destruct (is_word_start c && (10 <? length (c :: t))
            && endswith ENCRYPTED_SUFFIX (c :: t)) eqn:Hc; [|discriminate].
  apply andb_true_iff in Hc as [Hc Hend].
  apply andb_true_iff in Hc as [Hc Hlen].
  apply Nat.ltb_lt in Hlen.
  destruct (dropwhile_suffix isspace (dropwhile is_word s)) as (ws' & Hr & Hws').
  destruct (dropwhile isspace (dropwhile is_word s)) as [|e r] eqn:Er;
    [discriminate|].
  destruct (Ascii.eqb e equals) eqn:Ee; [|discriminate].
  apply Ascii.eqb_eq in Ee. subst e.
  intros H; inversion H; subst run; clear H.
  exists ws, ws', r.
  assert (Hw : forallb is_word (c :: t) = true).
  { rewrite <- Et. apply takewhile_all. }
  split; [|split; [|split; [|split; [|split]]]]; auto.
  - rewrite Hl at 1. f_equal. rewrite <- Htd at 1. f_equal. exact Hr.
  - pose proof (endswith_split _ _ Hend) as Hsp.
    change (length ENCRYPTED_SUFFIX) with 10 in Hsp.
    unfold drop_last_n in *.
    destruct (length (c :: t) - 10) as [|k] eqn:Ek; [simpl in *; lia|].
    simpl. rewrite Hc. simpl.
    simpl in Hw. apply andb_true_iff in Hw as [_ Hw].
    now apply forallb_firstn.
  - apply (endswith_split _ _ Hend).
Qed.

(* ================================================================== *)
(** ** The matcher on the loops of the module's patterns *)

Lemma star_greedy_no_backtrack {R : Type} p s (k : text -> option R) :
  (forall c t, p c = true -> k (c :: t) = None) ->
  star_greedy p s k = k (dropwhile p s).
Proof.
  intros Hk. induction s as [|c s IH]; simpl; [reflexivity|].
  destruct (p c) eqn:Hc; [|reflexivity].
  rewrite IH. destruct (k (dropwhile p s)) eqn:E; [reflexivity|].
  now apply Hk.
Qed.

Lemma star_greedy_fixed_length {R : Type} p n s (k : text -> option R) :
  (forall s2, k s2 <> None -> length (takewhile p s2) = n) ->
  star_greedy p s k
  = if n <=? length (takewhile p s)
    then k (skipn (length (takewhile p s) - n) s)
    else None.
Proof.
  intros Hk.
  assert (Hnone : forall s2, length (takewhile p s2) <> n -> k s2 = None).
  { intros s2 Hlen. destruct (k s2) eqn:E; [|reflexivity].
    exfalso. apply Hlen, Hk. congruence. }
  induction s as [|c s IH].
  - cbn [star_greedy takewhile length]. destruct n; [reflexivity|].
    cbn [Nat.leb]. now apply Hnone.
  - cbn [star_greedy takewhile]. destruct (p c) eqn:Hc.
    + rewrite IH. cbn [length]. set (m := length (takewhile p s)).
      assert (Hcs : length (takewhile p (c :: s)) = S m)
        by (cbn [takewhile]; now rewrite Hc).
      destruct (n <=? m) eqn:Hnm.
      * apply Nat.leb_le in Hnm.
        replace (n <=? S m) with true by (symmetry; apply Nat.leb_le; lia).
        replace (S m - n) with (S (m - n)) by lia. cbn [skipn].
        destruct (k (skipn (m - n) s)) eqn:E; [reflexivity|].
        apply Hnone. lia.
      * apply Nat.leb_gt in Hnm.
        destruct (n <=? S m) eqn:Hnm'.
        -- apply Nat.leb_le in Hnm'. replace (S m - n) with 0 by lia.
           reflexivity.
        -- apply Nat.leb_gt in Hnm'. apply Hnone. lia.
    + cbn [length]. destruct n; [reflexivity|]. cbn [Nat.leb].
      apply Hnone. cbn [takewhile]. rewrite Hc. cbn [length]. lia.
Qed.

Lemma star_lazy_first {R : Type} (p q : ascii -> bool) s (k : text -> option R) :
  (forall c t, q c = true -> k (c :: t) <> None) ->
  (forall c t, q c = false -> k (c :: t) = None) ->
  k [] = None ->
  star_lazy p s k
  = if forallb p (takewhile (fun c => negb (q c)) s)
    then k (dropwhile (fun c => negb (q c)) s)
    else None.
Proof.
  intros Hyes Hno Hnil. induction s as [|c s IH]; simpl.
  - now rewrite Hnil.
  - destruct (q c) eqn:Hq; simpl.
    + destruct (k (c :: s)) eqn:E; [reflexivity|].
      exfalso. now apply (Hyes c s Hq).
    + rewrite (Hno c s Hq). destruct (p c); simpl; [exact IH | reflexivity].
Qed.

Lemma app_same_length_tail (a b c d : text) :
  length b = length d -> a ++ b = c ++ d -> a = c /\ b = d.
Proof.
  intros Hlen H.
  assert (Hac : length a = length c).
  { apply (f_equal (@length ascii)) in H. rewrite !length_app in H. lia. }
  revert c Hac H. induction a as [|x a IH]; intros [|y c] Hac H;
    simpl in *; try discriminate; auto.
  inversion H; subst. destruct (IH c) as [-> ->]; auto.
Qed.

Lemma endswith_last a u :
  length u <= length a ->
  endswith u a = text_eqb (skipn (length a - length u) a) u.
Proof.
  intros Hlen.
  pose proof (firstn_skipn (length a - length u) a) as Hs.
  assert (Hl2 : length (skipn (length a - length u) a) = length u)
    by (rewrite length_skipn; lia).
  destruct (text_eqb (skipn (length a - length u) a) u) eqn:E.
  - apply text_eqb_eq in E. rewrite <- Hs, E. apply endswith_app.
  - apply text_eqb_neq in E. destruct (endswith u a) eqn:He; [|reflexivity].
    exfalso. apply E. apply endswith_split in He.
    rewrite <- Hs in He at 1.
    now apply app_same_length_tail in He as [_ He].
Qed.

Lemma startswith_first a2 u rest :
  length a2 = length u ->
  startswith u (a2 ++ rest) = text_eqb a2 u.
Proof.
  intros Hlen. destruct (text_eqb a2 u) eqn:E.
  - apply text_eqb_eq in E. subst. apply startswith_app.
  - apply text_eqb_neq in E.
    destruct (startswith u (a2 ++ rest)) eqn:Hs; [|reflexivity].
    exfalso. apply E. apply startswith_split in Hs. clear E.
    revert u Hlen Hs.
    induction a2 as [|x a2 IH]; intros [|y u] Hlen Hs; simpl in *;
      try discriminate; auto.
    inversion Hs; subst. f_equal. apply IH; auto.
Qed.

Lemma star_greedy_ext {R : Type} p s (k1 k2 : text -> option R) :
  (forall x, k1 x = k2 x) -> star_greedy p s k1 = star_greedy p s k2.
Proof.
  intros H. induction s as [|c s IH]; simpl; [apply H|].
  now rewrite IH, H.
Qed.

Lemma star_lazy_ext {R : Type} p s (k1 k2 : text -> option R) :
  (forall x, k1 x = k2 x) -> star_lazy p s k1 = star_lazy p s k2.
Proof.
  intros H. induction s as [|c s IH]; simpl; rewrite H; [reflexivity|].
  now rewrite IH.
Qed.

Lemma run_ext {R : Type} subject r :
  forall s groups (k1 k2 : text -> list text -> option R),
  (forall x y, k1 x y = k2 x y) ->
  run subject r s groups k1 = run subject r s groups k2.
Proof.
  induction r as [| |p|u|p|p|r1 IH1 r2 IH2|r0 IH]; intros s groups k1 k2 H;
    cbn [run]; rewrite ?H; try reflexivity.
  - destruct s as [|c s']; [reflexivity|]. now rewrite H.
  - apply star_greedy_ext. intros x. apply H.
  - apply star_lazy_ext. intros x. apply H.
  - apply IH1. intros x y. now apply IH2.
  - apply IH. intros x y. apply H.
Qed.

Lemma space_not_is_equals c : isspace c = true -> is_equals c = false.
Proof. ascii_cases c. Qed.

Lemma word_not_is_equals c : is_word c = true -> is_equals c = false.
Proof. ascii_cases c. Qed.

Lemma space_not_quote c : isspace c = true -> is_quote c = false.
Proof. ascii_cases c. Qed.

Lemma run_assigns subject s groups :
  run subject (seq [Star isspace; Chr is_equals]) s groups accept
  = if assigns s then Some groups else None.
Proof.
  cbn [seq fold_right run]. rewrite star_greedy_no_backtrack.
  - unfold assigns. destruct (dropwhile isspace s) as [|e r]; [reflexivity|].
    reflexivity.
  - intros c t Hc. now rewrite (space_not_is_equals c Hc).
Qed.

Lemma run_suffix_assigns subject s groups :
  run subject (seq [Lit ENCRYPTED_SUFFIX; Star isspace; Chr is_equals])
    s groups accept
  = if startswith ENCRYPTED_SUFFIX s && assigns (skipn 10 s)
    then Some groups else None.
Proof.
  change (seq [Lit ENCRYPTED_SUFFIX; Star isspace; Chr is_equals])
    with (Cat (Lit ENCRYPTED_SUFFIX) (seq [Star isspace; Chr is_equals])).
  cbn [run]. destruct (startswith ENCRYPTED_SUFFIX s); [|reflexivity].
  apply run_assigns.
Qed.

Lemma assigns_not_word s : assigns s = true -> takewhile is_word s = [].
Proof.
  unfold assigns. destruct s as [|c s]; [reflexivity|]. simpl.
  destruct (isspace c) eqn:Hc.
  - intros _. now rewrite (space_not_word c Hc).
  - intros H. apply Ascii.eqb_eq in H. subst c. reflexivity.
Qed.

Lemma assigns_not_word_drop s : assigns s = true -> dropwhile is_word s = s.
Proof.
  intros H. pose proof (takewhile_dropwhile is_word s) as T.
  now rewrite (assigns_not_word s H) in T.
Qed.

Lemma suffix_assigns_length s :
  startswith ENCRYPTED_SUFFIX s && assigns (skipn 10 s) = true ->
  length (takewhile is_word s) = 10.
Proof.
  intros H. apply andb_true_iff in H as [Hs Ha].
  apply startswith_split in Hs. change (length ENCRYPTED_SUFFIX) with 10 in Hs.
  rewrite Hs, takewhile_app by reflexivity.
  now rewrite (assigns_not_word _ Ha).
Qed.

Lemma encrypted_run_assigns line :
  encrypted_run line =
  let s := dropwhile isspace line in
  let run := takewhile is_word s in
  match run with
  | [] => None
  | c :: _ =>
      if is_word_start c && (10 <? length run)
         && endswith ENCRYPTED_SUFFIX run && assigns (dropwhile is_word s)
      then Some run else None
  end.
Proof.
  unfold encrypted_run, assigns. cbv zeta.
  destruct (takewhile is_word (dropwhile isspace line)) as [|c r];
    [reflexivity|].
  destruct (is_word_start c && (10 <? length (c :: r))
            && endswith ENCRYPTED_SUFFIX (c :: r)); [|reflexivity].
  cbn [andb].
  destruct (dropwhile isspace (dropwhile is_word (dropwhile isspace line)));
    reflexivity.
Qed.

(** The greedy word loop followed by [_ENCRYPTED\s*=]: the only split that
    lets the rest match gives the loop everything but the suffix. *)
Lemma star_greedy_suffix {R : Type} c t (f : text -> R) :
  is_word c = true ->
  let a := takewhile is_word t in
  let rest := dropwhile is_word t in
  star_greedy is_word t
    (fun s2 => if startswith ENCRYPTED_SUFFIX s2 && assigns (skipn 10 s2)
               then Some (f s2) else None)
  = if (10 <? length (c :: a)) && endswith ENCRYPTED_SUFFIX (c :: a)
       && assigns rest
    then Some (f (ENCRYPTED_SUFFIX ++ rest)) else None.
Proof.
  intros Hc a rest.
  rewrite (star_greedy_fixed_length is_word 10).
  2:{ intros s2 H. apply suffix_assigns_length.
      destruct (startswith ENCRYPTED_SUFFIX s2 && assigns (skipn 10 s2));
        congruence. }
  fold a. change (10 <? length (c :: a)) with (10 <=? length a).
  destruct (10 <=? length a) eqn:Hlen; [|reflexivity].
  apply Nat.leb_le in Hlen. cbn [andb].
  set (a2 := skipn (length a - 10) a).
  assert (Ha2 : length a2 = 10) by (unfold a2; rewrite length_skipn; lia).
  assert (Et : skipn (length a - 10) t = a2 ++ rest).
  { rewrite <- (takewhile_dropwhile is_word t) at 1. fold a rest.
    rewrite skipn_app.
    replace (length a - 10 - length a) with 0 by lia. reflexivity. }
  rewrite Et, (startswith_first a2 ENCRYPTED_SUFFIX rest Ha2).
  rewrite (endswith_last (c :: a) ENCRYPTED_SUFFIX) by (simpl; lia).
  replace (skipn (length (c :: a) - length ENCRYPTED_SUFFIX) (c :: a)) with a2.
  2:{ unfold a2. change (length ENCRYPTED_SUFFIX) with 10. simpl length.
      replace (S (length a) - 10) with (S (length a - 10)) by lia.
      reflexivity. }
  destruct (text_eqb a2 ENCRYPTED_SUFFIX) eqn:E; [|reflexivity].
  apply text_eqb_eq in E. rewrite E. cbn [andb].
  change (skipn 10 (ENCRYPTED_SUFFIX ++ rest)) with rest.
  reflexivity.
Qed.

Lemma firstn_app_length (a b : text) : firstn (length (a ++ b) - length b) (a ++ b) = a.
Proof.
  rewrite length_app. replace (length a + length b - length b) with (length a) by lia.
  rewrite firstn_app, Nat.sub_diag, firstn_all. simpl. apply app_nil_r.
Qed.

Lemma firstn_takewhile p (s : text) :
  firstn (length s - length (dropwhile p s)) s = takewhile p s.
Proof.
  rewrite <- (takewhile_dropwhile p s) at 1 3.
  apply firstn_app_length.
Qed.

(** The [encrypted_pattern] of [encrypt_secrets] computes
    [encrypted_pattern_base]. *)
Lemma re_match_encrypted_pattern_of_encrypt line :
  re_match encrypted_pattern_of_encrypt line
  = option_map (fun g => [g]) (encrypted_pattern_base line).
Proof.
  unfold re_match, encrypted_pattern_of_encrypt, encrypted_pattern_base.
  rewrite encrypted_run_assigns. cbv zeta.
  set (tail := seq [Lit ENCRYPTED_SUFFIX; Star isspace; Chr is_equals]).
  change (seq [Bol; Star isspace;
               Group (seq [Chr is_word_start; Star is_word]);
               Lit ENCRYPTED_SUFFIX; Star isspace; Chr is_equals])
    with (Cat Bol (Cat (Star isspace)
            (Cat (Group (Cat (Chr is_word_start) (Cat (Star is_word) Eps)))
               tail))).
  cbn [run]. rewrite Nat.eqb_refl.
  rewrite star_greedy_no_backtrack.
  2:{ intros c t Hc. now rewrite (space_not_word_start c Hc). }
  destruct (dropwhile isspace line) as [|c t] eqn:Es1; [reflexivity|].
  destruct (is_word_start c) eqn:Hc.
  2:{ cbn [takewhile]. destruct (is_word c); [|reflexivity].
      rewrite Hc. reflexivity. }
  pose proof (word_start_is_word c Hc) as Hw.
  cbn [takewhile dropwhile]. rewrite Hw.
  rewrite (star_greedy_ext is_word t _
             (fun s2 => if startswith ENCRYPTED_SUFFIX s2 && assigns (skipn 10 s2)
                        then Some [firstn (length (c :: t) - length s2) (c :: t)]
                        else None))
    by (intros x; unfold tail; apply run_suffix_assigns).
  rewrite (star_greedy_suffix c t _ Hw), Hc. cbn [andb].
  set (a := takewhile is_word t). set (rest := dropwhile is_word t).
  destruct ((10 <? length (c :: a)) && endswith ENCRYPTED_SUFFIX (c :: a)
            && assigns rest) eqn:E; [|reflexivity].
  cbn [option_map]. do 2 f_equal.
  apply andb_true_iff in E as [E _].
  apply andb_true_iff in E as [_ E]. apply endswith_split in E.
  change (length ENCRYPTED_SUFFIX) with 10 in E.
  assert (Et : c :: t = drop_last_n 10 (c :: a) ++ ENCRYPTED_SUFFIX ++ rest).
  { rewrite app_assoc, <- E. simpl. f_equal. symmetry.
    apply takewhile_dropwhile. }
  rewrite Et at 1 2. apply firstn_app_length.
Qed.

(** The [encrypted_pattern] of [decrypt_secrets] computes
    [encrypted_pattern_full]. *)
Lemma re_match_encrypted_pattern_of_decrypt line :
  re_match encrypted_pattern_of_decrypt line
  = option_map (fun g => [g]) (encrypted_pattern_full line).
Proof.
  unfold re_match, encrypted_pattern_of_decrypt, encrypted_pattern_full.
  rewrite encrypted_run_assigns. cbv zeta.
  set (tail := seq [Star isspace; Chr is_equals]).
  change (seq [Bol; Star isspace;
               Group (seq [Chr is_word_start; Star is_word;
                           Lit ENCRYPTED_SUFFIX]);
               Star isspace; Chr is_equals])
    with (Cat Bol (Cat (Star isspace)
            (Cat (Group (Cat (Chr is_word_start)
                           (Cat (Star is_word) (Cat (Lit ENCRYPTED_SUFFIX) Eps))))
               tail))).
  cbn [run]. rewrite Nat.eqb_refl.
  rewrite star_greedy_no_backtrack.
  2:{ intros c t Hc. now rewrite (space_not_word_start c Hc). }
  destruct (dropwhile isspace line) as [|c t] eqn:Es1; [reflexivity|].
  destruct (is_word_start c) eqn:Hc.
  2:{ cbn [takewhile]. destruct (is_word c); [|reflexivity].
      rewrite Hc. reflexivity. }
  pose proof (word_start_is_word c Hc) as Hw.
  cbn [takewhile dropwhile]. rewrite Hw.
  rewrite (star_greedy_ext is_word t _
             (fun s2 => if startswith ENCRYPTED_SUFFIX s2 && assigns (skipn 10 s2)
                        then Some [firstn (length (c :: t)
                                           - length (skipn 10 s2)) (c :: t)]
                        else None)).
  2:{ intros x. change (length ENCRYPTED_SUFFIX) with 10.
      destruct (startswith ENCRYPTED_SUFFIX x); [|reflexivity].
      unfold tail. rewrite run_assigns. reflexivity. }
  rewrite (star_greedy_suffix c t
             (fun s2 => [firstn (length (c :: t) - length (skipn 10 s2)) (c :: t)])
             Hw).
  rewrite Hc. cbn [andb].
  set (a := takewhile is_word t). set (rest := dropwhile is_word t).
  destruct ((10 <? length (c :: a)) && endswith ENCRYPTED_SUFFIX (c :: a)
            && assigns rest); [|reflexivity].
  cbn [option_map]. do 2 f_equal.
  change (skipn 10 (ENCRYPTED_SUFFIX ++ rest)) with rest.
  assert (Et : c :: t = (c :: a) ++ rest).
  { simpl. f_equal. symmetry. apply takewhile_dropwhile. }
  rewrite Et. apply firstn_app_length.
Qed.

Lemma contains_LF_forallb v : contains LF v = negb (forallb not_LF v).
Proof.
  induction v as [|c v IH]; simpl; [reflexivity|].
  rewrite IH. unfold not_LF. rewrite (Ascii.eqb_sym LF c).
  now destruct (Ascii.eqb c LF); destruct (forallb _ v).
Qed.

Lemma run_value_tail subject s groups :
  run subject value_tail s groups accept
  = match dropwhile isspace s with
    | e :: r1 =>
        if Ascii.eqb e equals then
          match dropwhile isspace r1 with
          | q :: r2 =>
              if is_quote q then
                match dropwhile not_quote r2 with
                | [] => None
                | _ :: _ =>
                    if contains LF (takewhile not_quote r2) then None
                    else Some (groups ++ [takewhile not_quote r2])
                end
              else None
          | [] => None
          end
        else None
    | [] => None
    end.
Proof.
  unfold value_tail. cbn [seq fold_right run].
  rewrite star_greedy_no_backtrack
    by (intros c t Hc; now rewrite (space_not_is_equals c Hc)).
  destruct (dropwhile isspace s) as [|e r1]; [reflexivity|].
  unfold is_equals at 1. destruct (Ascii.eqb e equals); [|reflexivity].
  rewrite star_greedy_no_backtrack
    by (intros c t Hc; now rewrite (space_not_quote c Hc)).
  destruct (dropwhile isspace r1) as [|q r2]; [reflexivity|].
  destruct (is_quote q); [|reflexivity].
  rewrite (star_lazy_first not_LF is_quote).
  - fold not_quote. rewrite contains_LF_forallb.
    destruct (dropwhile not_quote r2) as [|q' r3] eqn:Ed.
    + now destruct (forallb not_LF (takewhile not_quote r2)).
    + pose proof (dropwhile_head _ _ _ _ Ed) as Hq. unfold not_quote in Hq.
      apply negb_false_iff in Hq. rewrite Hq.
      rewrite <- Ed, firstn_takewhile.
      now destruct (forallb not_LF (takewhile not_quote r2)).
  - intros c t Hq. rewrite Hq. discriminate.
  - intros c t Hq. now rewrite Hq.
  - reflexivity.
Qed.

Lemma run_secret_pattern subject s :
  run subject secret_pattern s [] accept
  = option_map (fun nv => [fst nv; snd nv]) (assignment_match_here s).
Proof.
  change secret_pattern
    with (Cat (Group (Cat (Chr is_word_start) (Cat (Star is_word) Eps)))
            value_tail).
  cbn [run]. unfold assignment_match_here.
  destruct s as [|c t]; [reflexivity|].
  destruct (is_word_start c) eqn:Hc; [|reflexivity].
  pose proof (word_start_is_word c Hc) as Hw.
  rewrite star_greedy_no_backtrack.
  2:{ intros c' t' Hc'. rewrite run_value_tail.
      rewrite dropwhile_stop by now apply word_not_space.
      apply word_not_equals in Hc'. unfold not_equals in Hc'.
      apply negb_true_iff in Hc'. now rewrite Hc'. }
  rewrite run_value_tail.
  cbn [dropwhile takewhile]. rewrite Hw.
  assert (Hname : firstn (length (c :: t) - length (dropwhile is_word t)) (c :: t)
                  = c :: takewhile is_word t).
  { pose proof (firstn_takewhile is_word (c :: t)) as F.
    cbn [dropwhile takewhile] in F. now rewrite Hw in F. }
  rewrite Hname.
  destruct (dropwhile isspace (dropwhile is_word t)) as [|e r1]; [reflexivity|].
  destruct (Ascii.eqb e equals); [|reflexivity].
  destruct (dropwhile isspace r1) as [|q r2]; [reflexivity|].
  destruct (is_quote q); [|reflexivity].
  destruct (dropwhile not_quote r2); [reflexivity|].
  destruct (contains LF (takewhile not_quote r2)); reflexivity.
Qed.

(** [secret_pattern], searched for, computes [search_assignment]. *)
Lemma re_search_secret_pattern line :
  re_search secret_pattern line
  = option_map (fun nv => [fst nv; snd nv]) (search_assignment line).
Proof.
  unfold re_search. generalize line at 1 as subject. intros subject.
  induction line as [|c s IH].
  - reflexivity.
  - cbn [search_from]. rewrite run_secret_pattern, IH.
    change (search_assignment (c :: s))
      with (match assignment_match_here (c :: s) with
            | Some m => Some m
            | None => search_assignment s
            end).
    destruct (assignment_match_here (c :: s)); reflexivity.
Qed.

(* ================================================================== *)
(** ** How [encrypt_secrets] treats the lines it has written *)

Lemma classify_keep_any E E2 line :
  classify E line = Keep -> classify E2 line = Keep.
Proof.
  unfold classify.
  destruct (comment_or_blank line || negb (contains equals line));
    [reflexivity|].
  destruct (text_eqb (secret_name_of line) MASTER_KEY_ENV
            || endswith ENCRYPTED_SUFFIX (secret_name_of line));
    [reflexivity|].
  destruct (set_mem text_eq_dec (secret_name_of line) E); discriminate.
Qed.

Lemma classify_names E line :
  match classify E line with
  | Keep => True
  | Skip name =>
      name = secret_name_of line /\ name <> MASTER_KEY_ENV /\
      endswith ENCRYPTED_SUFFIX name = false /\ set_In name E
  | Fresh name value =>
      name = secret_name_of line /\ value = secret_value_of line /\
      name <> MASTER_KEY_ENV /\ endswith ENCRYPTED_SUFFIX name = false /\
      ~ set_In name E
  end.
Proof.
  unfold classify.
  destruct (comment_or_blank line || negb (contains equals line));
    [exact I|].
  destruct (text_eqb (secret_name_of line) MASTER_KEY_ENV) eqn:Hm;
    [exact I|].
  destruct (endswith ENCRYPTED_SUFFIX (secret_name_of line)) eqn:He;
    [exact I|]. simpl.
  apply text_eqb_neq in Hm.
  destruct (set_mem text_eq_dec (secret_name_of line) E) eqn:Hs.
  - apply set_mem_correct1 in Hs. auto.
  - repeat split; auto. now apply (set_mem_complete1 text_eq_dec).
Qed.

Lemma classify_matched E line run :
  encrypted_run line = Some run -> classify E line = Keep.
Proof.
  intros H.
  destruct (encrypted_run_parts line run H)
    as (ws & ws' & r & Hl & Hws & Hws' & Hw & _ & Hrun).
  destruct (named_line_parts ws run ws' r Hws Hws' Hw) as (Hc & Hn & _).
  rewrite <- Hl in Hc, Hn.
  unfold classify. rewrite Hn.
  replace (endswith ENCRYPTED_SUFFIX run) with true
    by (rewrite Hrun; symmetry; apply endswith_app).
  rewrite orb_true_r.
  destruct (comment_or_blank line || negb (contains equals line));
    reflexivity.
Qed.

Lemma assignment_line_shape n v :
  assignment_line n v
  = [] ++ n ++ [" "%char] ++ equals :: (" "%char :: dquote :: v ++ [dquote; LF]).
Proof. reflexivity. Qed.

Lemma encrypted_line_shape n c mke sig dt :
  encrypted_line n c mke sig dt
  = [] ++ (n ++ ENCRYPTED_SUFFIX) ++ [" "%char]
    ++ equals :: (" "%char :: dquote :: c ++ dquote :: metadata_tail mke sig dt).
Proof.
  unfold encrypted_line. simpl. now rewrite <- !app_assoc.
Qed.

Lemma classify_assignment_line E n v :
  is_identifier n = true -> n <> MASTER_KEY_ENV ->
  endswith ENCRYPTED_SUFFIX n = false ->
  classify E (assignment_line n v)
  = if set_mem text_eq_dec n E then Skip n
    else Fresh n (secret_value_of (assignment_line n v)).
Proof.
  intros Hid Hm He.
  pose proof (identifier_words n Hid) as Hw.
  destruct (named_line_parts [] n [" "%char] (" "%char :: dquote :: v ++ [dquote; LF])
              eq_refl eq_refl Hw) as (Hc & Hn & _).
  rewrite <- assignment_line_shape in Hc, Hn.
  unfold classify. rewrite Hc, Hn, He.
  replace (comment_or_blank (assignment_line n v)) with false.
  - simpl. apply text_eqb_neq in Hm. now rewrite Hm.
  - symmetry. destruct n as [|c r]; [discriminate|].
    apply comment_or_blank_word. simpl in Hw.
    apply andb_true_iff in Hw. tauto.
Qed.

Lemma suffix_words : forallb is_word ENCRYPTED_SUFFIX = true.
Proof. reflexivity. Qed.

Lemma encrypted_run_encrypted_line n c mke sig dt :
  is_identifier n = true ->
  encrypted_run (encrypted_line n c mke sig dt) = Some (n ++ ENCRYPTED_SUFFIX).
Proof.
  intros Hid. pose proof (identifier_words n Hid) as Hw.
  destruct (identifier_head n Hid) as (h & t & En & Hh).
  assert (Hrun : forallb is_word (n ++ ENCRYPTED_SUFFIX) = true)
    by now rewrite forallb_app, Hw.
  rewrite encrypted_line_shape.
  set (tail := " "%char :: dquote :: c ++ dquote :: metadata_tail mke sig dt).
  set (rest := [" "%char] ++ equals :: tail).
  change ([] ++ (n ++ ENCRYPTED_SUFFIX) ++ rest)
    with ((n ++ ENCRYPTED_SUFFIX) ++ rest).
  assert (D1 : dropwhile isspace ((n ++ ENCRYPTED_SUFFIX) ++ rest)
               = (n ++ ENCRYPTED_SUFFIX) ++ rest).
  { rewrite En. apply dropwhile_stop.
    apply word_not_space, word_start_is_word, Hh. }
  assert (T1 : takewhile is_word ((n ++ ENCRYPTED_SUFFIX) ++ rest)
               = n ++ ENCRYPTED_SUFFIX).
  { rewrite takewhile_app by assumption.
    change (takewhile is_word rest) with (@nil ascii). apply app_nil_r. }
  assert (D2 : dropwhile is_word ((n ++ ENCRYPTED_SUFFIX) ++ rest) = rest).
  { rewrite dropwhile_app by assumption. reflexivity. }
  assert (D3 : dropwhile isspace rest = equals :: tail) by reflexivity.
  assert (Hlen : (10 <? length (n ++ ENCRYPTED_SUFFIX)) = true).
  { apply Nat.ltb_lt. rewrite length_app, En. simpl. lia. }
  unfold encrypted_run. rewrite D1, T1, D2, D3, Hlen, endswith_app.
  rewrite En. simpl. now rewrite Hh.
Qed.

Lemma encrypted_pattern_base_encrypted_line n c mke sig dt :
  is_identifier n = true ->
  encrypted_pattern_base (encrypted_line n c mke sig dt) = Some n.
Proof.
  intros Hid. unfold encrypted_pattern_base.
  rewrite encrypted_run_encrypted_line by assumption. simpl. f_equal.
  apply (drop_last_n_app n ENCRYPTED_SUFFIX).
Qed.

Lemma collect_encrypted_bases_In lines acc g :
  set_In g (collect_encrypted_bases lines acc) <->
  set_In g acc \/ exists l, In l lines /\ encrypted_pattern_base l = Some g.
Proof.
  revert acc. induction lines as [|line rest IH]; intros acc; simpl.
  - split; [auto|]. intros [H|(l & [] & _)]. exact H.
  - rewrite re_match_encrypted_pattern_of_encrypt.
    destruct (encrypted_pattern_base line) as [g'|] eqn:E; cbn [option_map];
      [change (group [g'] 1) with g'|]; rewrite IH.
    + split.
      * intros [H|(l & Hl & Hg)].
        -- apply set_add_elim in H as [->|H]; [right|left; exact H].
           exists line; auto.
        -- right; exists l; auto.
      * intros [H|(l & [<-|Hl] & Hg)].
        -- left. now apply set_add_intro1.
        -- left. apply set_add_intro2. congruence.
        -- right; exists l; auto.
    + split.
      * intros [H|(l & Hl & Hg)]; [auto|]. right; exists l; auto.
      * intros [H|(l & [<-|Hl] & Hg)]; [auto|congruence|].
        right; exists l; auto.
Qed.

(* ================================================================== *)
(** ** The first pass of [encrypt_secrets] *)

Lemma proper_lines_tail l ls : proper_lines (l :: ls) -> proper_lines ls.
Proof. inversion 1; subst; [constructor | assumption]. Qed.

Lemma proper_lines_keep l rest L' :
  proper_lines (l :: rest) -> proper_lines L' -> (rest = [] -> L' = []) ->
  proper_lines (l :: L').
Proof.
  inversion 1; subst; intros HL Hnil.
  - rewrite (Hnil eq_refl). now constructor.
  - now constructor.
Qed.

Lemma proper_assignment_line n v rest :
  no_newline n = true -> no_newline v = true -> proper_lines rest ->
  proper_lines (assignment_line n v :: rest).
Proof.
  intros Hn Hv Hr.
  replace (assignment_line n v)
    with ((n ++ lit " = " ++ [dquote] ++ v ++ [dquote]) ++ [LF])
    by (unfold assignment_line; now rewrite <- !app_assoc).
  constructor; [|assumption].
  now rewrite !no_newline_app, Hn, Hv.
Qed.

Lemma no_newline_last_n k s : no_newline s = true -> no_newline (last_n k s) = true.
Proof.
  intros H. unfold last_n.
  rewrite <- (firstn_skipn (length s - k) s), no_newline_app in H.
  apply andb_true_iff in H. tauto.
Qed.

Lemma proper_encrypted_line n c mke sig dt rest :
  no_newline n = true -> no_newline c = true -> no_newline mke = true ->
  no_newline (last_n 8 sig) = true -> no_newline dt = true ->
  proper_lines rest ->
  proper_lines (encrypted_line n c mke sig dt :: rest).
Proof.
  intros Hn Hc Hm Hs Hd Hr.
  replace (encrypted_line n c mke sig dt)
    with ((n ++ ENCRYPTED_SUFFIX ++ lit " = " ++ [dquote] ++ c ++ [dquote]
           ++ lit "    #" ++ mke ++ lit "," ++ last_n 8 sig ++ lit "," ++ dt)
          ++ [LF])
    by (unfold encrypted_line, metadata_tail; now rewrite <- !app_assoc).
  constructor; [|assumption].
  now rewrite !no_newline_app, Hn, Hc, Hm, Hs, Hd.
Qed.

Lemma settled_weaken E (P Q : text -> Prop) l :
  (forall g, P g -> Q g) -> settled E P l -> settled E Q l.
Proof.
  intros HPQ [H|(n & H1 & H2 & H3 & H4 & [H5|H5])]; [now left| |];
    right; exists n; repeat split; auto.
Qed.

Lemma has_encrypted_line_cons l ls g :
  has_encrypted_line ls g -> has_encrypted_line (l :: ls) g.
Proof. intros (x & Hx & Hg). exists x. split; [now right | assumption]. Qed.

Section FirstPass.

Context {W : Collaborators}.
Variables (E : set text) (mke : text) (key : option text).
Hypothesis HE : forall g, set_In g E -> is_identifier g = true.
Hypothesis Hmke : no_newline mke = true.
Hypothesis Hsig : no_newline (last_n 8 (signature_of key)) = true.
Hypothesis Hnow : forall k, no_newline (now k) = true.

Lemma rewritten_lines_settled lines :
  forall count n,
  proper_lines lines ->
  all_lines (encrypts_cleanly E key) E lines count = true ->
  fst (encrypt_lines E mke key lines count) = Returned n ->
  let L' := rewritten_lines E mke key lines count in
  proper_lines L' /\
  Forall (settled E (has_encrypted_line L')) L' /\
  (forall l, In l lines -> classify E l = Keep -> In l L').
Proof.
  induction lines as [|line rest IH]; intros count n Hp Hc Hr; simpl.
  - repeat split; [constructor | constructor | intros l []].
  - simpl in Hc, Hr. apply andb_true_iff in Hc as [Hc Hcr].
    rewrite encrypt_line_classify in Hr.
    unfold encrypts_cleanly in Hc. unfold count_after in Hcr.
    pose proof (classify_names E line) as Hnames.
    pose proof (proper_lines_tail _ _ Hp) as Hpr.
    destruct (classify E line) as [|name|name value] eqn:Hcl.
    + destruct (IH count n Hpr Hcr Hr) as (I1 & I2 & I3).
      split; [|split].
      * apply (proper_lines_keep line rest); auto. now intros ->.
      * constructor.
        -- left. intros E2. apply (classify_keep_any E). exact Hcl.
        -- eapply Forall_impl; [|exact I2]. intros l.
           apply settled_weaken. apply has_encrypted_line_cons.
      * intros l [<-|Hl] Hk; [now left | right; now apply I3].
    + destruct Hnames as (_ & Hm & He & Hin).
      destruct (IH count n Hpr Hcr Hr) as (I1 & I2 & I3).
      pose proof (HE _ Hin) as Hid.
      split; [|split].
      * apply proper_assignment_line; auto.
        apply words_no_newline, identifier_words, Hid.
      * constructor.
        -- right. exists name. repeat split; auto.
        -- eapply Forall_impl; [|exact I2]. intros l.
           apply settled_weaken. apply has_encrypted_line_cons.
      * intros l [<-|Hl] Hk; [congruence | right; now apply I3].
    + destruct Hnames as (_ & _ & Hm & He & Hin).
      destruct (encrypt_value count value key) as [c|]; [|discriminate].
      apply andb_true_iff in Hc as [Hid Hcn].
      destruct (IH (S count) n Hpr Hcr Hr) as (I1 & I2 & I3).
      pose proof (words_no_newline _ (identifier_words _ Hid)) as Hnn.
      split; [|split].
      * apply proper_assignment_line; auto.
        apply proper_encrypted_line; auto.
      * constructor; [|constructor].
        -- right. exists name. repeat split; auto. right.
           eexists. split; [right; left; reflexivity|].
           now apply encrypted_pattern_base_encrypted_line.
        -- left. intros E2.
           apply (classify_matched E2 _ (name ++ ENCRYPTED_SUFFIX)).
           now apply encrypted_run_encrypted_line.
        -- eapply Forall_impl; [|exact I2]. intros l.
           apply settled_weaken. intros g Hg.
           now apply has_encrypted_line_cons, has_encrypted_line_cons.
      * intros l [<-|Hl] Hk; [congruence | right; right; now apply I3].
Qed.

End FirstPass.

(** A pass over settled lines copies every one of them. *)
Lemma encrypt_lines_settled {W : Collaborators} E2 mke2 key2 lines :
  Forall (fun l => classify E2 l = Keep \/
                   exists n, l = assignment_line n [] /\ classify E2 l = Skip n)
         lines ->
  forall count,
  encrypt_lines E2 mke2 key2 lines count = (Returned count, concat lines).
Proof.
  induction 1 as [|l ls Hl Hls IH]; intros count; simpl; [reflexivity|].
  rewrite encrypt_line_classify.
  destruct Hl as [-> | (n & El & ->)]; rewrite IH; unfold written; simpl.
  - reflexivity.
  - now rewrite <- El.
Qed.

(* ================================================================== *)
(** ** The disclaimer and the second pass *)

Lemma contains_spaces c a :
  isspace c = false -> forallb isspace a = true -> contains c a = false.
Proof.
  intros Hc. induction a as [|d a IH]; simpl; [reflexivity|]. intros H.
  apply andb_true_iff in H as [Hd Ha]. rewrite (IH Ha), orb_false_r.
  destruct (Ascii.eqb c d) eqn:E; [|reflexivity].
  apply Ascii.eqb_eq in E. congruence.
Qed.

Lemma contains_strip c s :
  isspace c = false -> contains c (strip s) = contains c s.
Proof.
  intros Hc. destruct (strip_by_decompose isspace s) as (a & b & Hs & Ha & Hb & _).
  fold (strip s) in Hs. rewrite Hs at 2.
  rewrite !contains_app, (contains_spaces c a Hc Ha), (contains_spaces c b Hc Hb).
  now rewrite orb_false_r.
Qed.

Lemma disclaimer_has_no_equals s :
  strip s = HEADER_DISCLAIMER -> contains equals s = false.
Proof.
  intros H. rewrite <- (contains_strip equals s eq_refl), H. reflexivity.
Qed.

Lemma classify_disclaimer E s :
  strip s = HEADER_DISCLAIMER -> classify E s = Keep.
Proof.
  intros H. unfold classify. rewrite (disclaimer_has_no_equals s H).
  now rewrite orb_true_r.
Qed.

Lemma strip_disclaimer_line : strip (HEADER_DISCLAIMER ++ [LF]) = HEADER_DISCLAIMER.
Proof. vm_compute. reflexivity. Qed.

Lemma encrypted_base_identifier line g :
  encrypted_pattern_base line = Some g ->
  is_identifier g = true /\ exists run, encrypted_run line = Some run.
Proof.
  unfold encrypted_pattern_base.
  destruct (encrypted_run line) as [run|] eqn:E; [|discriminate].
  simpl. intros H; inversion H; subst g.
  destruct (encrypted_run_parts line run E) as (_ & _ & _ & _ & _ & _ & _ & Hid & _).
  split; [assumption | now exists run].
Qed.

(** A pass over a file whose lines are settled changes nothing and counts
    nothing. *)
Lemma encrypt_secrets_settled {W : Collaborators} E lines mke mk :
  proper_lines lines ->
  (exists first rest, lines = first :: rest /\ strip first = HEADER_DISCLAIMER) ->
  Forall (settled E (has_encrypted_line lines)) lines ->
  (forall g, set_In g E -> has_encrypted_line lines g) ->
  encrypt_secrets (concat lines) mke mk = (Returned 0, concat lines).
Proof.
  intros Hp (first & rest & El & Hfirst) Hs HE.
  unfold encrypt_secrets. rewrite (readlines_concat _ Hp).
  assert (Hh : header_chunk lines = Some []).
  { rewrite El. simpl. rewrite Hfirst. now rewrite text_eqb_refl. }
  rewrite Hh.
  set (E2 := collect_encrypted_bases lines (empty_set text)).
  rewrite encrypt_lines_settled; [reflexivity|].
  eapply Forall_impl; [|exact Hs].
  intros l [Hk|(n & Hl & Hid & Hm & He & Hn)]; [left; apply Hk|].
  right. exists n. split; [assumption|].
  assert (Hin : set_In n E2).
  { apply collect_encrypted_bases_In. right.
    destruct Hn as [Hn|Hn]; [now apply HE | exact Hn]. }
  rewrite Hl, classify_assignment_line by assumption.
  now rewrite (set_mem_correct2 text_eq_dec _ _ Hin).
Qed.

(* ================================================================== *)
(** ** Idempotence of [encrypt_secrets] *)

(** C5, as amended.  When the first pass returns, every line it encrypted has
    an identifier as its name, and the cipher text, the key-variable name, the
    signature suffix and the timestamps hold no line break, a second pass
    (with any collaborators and any arguments) returns 0 and leaves the file
    content identical. *)
Theorem encrypt_secrets_idempotent (w1 w2 : Collaborators)
  (content mke : text) (mk : option text) (n : nat) (out : text)
  (mke2 : text) (mk2 : option text) :
  let key := if truthy mk then mk else @getenv w1 mke in
  let lines := readlines content in
  let E := collect_encrypted_bases lines (empty_set text) in
  no_newline mke = true ->
  no_newline (last_n 8 (@signature_of w1 key)) = true ->
  (forall k, no_newline (@now w1 k) = true) ->
  all_lines (@encrypts_cleanly w1 E key) E lines 0 = true ->
  @encrypt_secrets w1 content mke mk = (Returned n, out) ->
  @encrypt_secrets w2 out mke2 mk2 = (Returned 0, out).
Proof.
  intros key lines E Hmke Hsig Hnow Hclean Hrun.
  unfold encrypt_secrets in Hrun. fold key lines E in Hrun.
  destruct (header_chunk lines) as [hdr|] eqn:Hh; [|discriminate].
  pose proof (@encrypt_lines_written w1 E mke key lines 0) as Hw.
  destruct (@encrypt_lines w1 E mke key lines 0) as [r w] eqn:Hl.
  unfold written in Hrun. simpl in Hrun, Hw.
  inversion Hrun; subst r out; clear Hrun.
  assert (HE : forall g, set_In g E -> is_identifier g = true).
  { intros g Hg. apply collect_encrypted_bases_In in Hg as [[]|(l & _ & Hg)].
    now apply encrypted_base_identifier in Hg. }
  assert (Hfst : fst (@encrypt_lines w1 E mke key lines 0) = Returned n)
    by now rewrite Hl.
  destruct (@rewritten_lines_settled w1 E mke key HE Hmke Hsig Hnow lines 0 n
              (readlines_proper content) Hclean Hfst) as (I1 & I2 & I3).
  set (L' := @rewritten_lines w1 E mke key lines 0) in *.
  assert (HEL : forall g, set_In g E -> has_encrypted_line L' g).
  { intros g Hg. apply collect_encrypted_bases_In in Hg as [[]|(l & Hin & Hg)].
    exists l. split; [|assumption]. apply I3; [assumption|].
    destruct (encrypted_base_identifier l g Hg) as (_ & run & Hr).
    now apply (classify_matched E l run). }
  destruct lines as [|first rest] eqn:Elines; [discriminate|].
  simpl in Hh.
  destruct (text_eqb (strip first) HEADER_DISCLAIMER) eqn:Hd;
    inversion Hh; subst hdr; clear Hh.
  - apply text_eqb_eq in Hd. simpl app. rewrite Hw.
    apply (@encrypt_secrets_settled w2 E); auto.
    exists first. unfold L'. simpl.
    rewrite (classify_disclaimer E first Hd). eauto.
  - rewrite Hw.
    apply (@encrypt_secrets_settled w2 E ((HEADER_DISCLAIMER ++ [LF]) :: L')).
    + now constructor.
    + exists (HEADER_DISCLAIMER ++ [LF]), L'.
      split; [reflexivity | apply strip_disclaimer_line].
    + constructor.
      * left. intros E2. apply classify_disclaimer, strip_disclaimer_line.
      * eapply Forall_impl; [|exact I2]. intros l.
        apply settled_weaken. apply has_encrypted_line_cons.
    + intros g Hg. now apply has_encrypted_line_cons, HEL.
Qed.

Lemma encrypt_secrets_idempotent_witness :
  encrypt_secrets (W := sample) scenario_a_encrypted APP_KEY None
  = (Returned 0, scenario_a_encrypted).
Proof.
  apply (encrypt_secrets_idempotent sample sample scenario_a APP_KEY None 1
           scenario_a_encrypted APP_KEY None).
  - reflexivity.
  - reflexivity.
  - intros k. reflexivity.
  - vm_compute. reflexivity.
  - vm_compute. reflexivity.
Defined.

(** C5: a line whose name is not an identifier is encrypted again by every
    pass. *)
Lemma encrypt_secrets_not_idempotent :
  fst (encrypt_secrets (W := sample) odd_file APP_KEY None) = Returned 1 /\
  encrypt_secrets (W := sample) odd_file_encrypted APP_KEY None
  <> (Returned 0, odd_file_encrypted).
Proof.
  split; [vm_compute; reflexivity|]. vm_compute. discriminate.
Qed.

(* ================================================================== *)
(** ** [decrypt_secrets]: the key and the [master_key] argument *)

(** C8.  When the key variable is unset or empty, [decrypt_secrets] reports
    the error and returns before it opens the file for writing: the content
    is what it was. *)
Theorem decrypt_secrets_key_not_set (W : Collaborators)
  (content mke : text) (mk : option text) :
  getenv mke = None \/ getenv mke = Some [] ->
  decrypt_secrets content mke mk = (Returned KeyNotSet, content).
Proof.
  unfold decrypt_secrets. intros [-> | ->]; reflexivity.
Qed.

Lemma decrypt_secrets_key_not_set_witness :
  decrypt_secrets (W := sample) scenario_a_encrypted UNSET_KEY None
  = (Returned KeyNotSet, scenario_a_encrypted).
Proof.
  apply (decrypt_secrets_key_not_set sample scenario_a_encrypted UNSET_KEY None).
  left. reflexivity.
Defined.

(** C10.  The outcome and the resulting file of [decrypt_secrets] do not
    depend on its [master_key] argument: the key is read again from the
    environment variable named by [master_key_env]. *)
Theorem decrypt_secrets_ignores_master_key (W : Collaborators)
  (content mke : text) (mk1 mk2 : option text) :
  decrypt_secrets content mke mk1 = decrypt_secrets content mke mk2.
Proof. reflexivity. Qed.

(* ================================================================== *)
(** ** [encrypt_secrets]: empty values and the signature *)

(** C3, where the code departs from the specification.  On a file whose only
    line is [FOO = ""], [encrypt_secrets] hands the empty value to the cipher
    and, when the cipher returns, writes a [FOO_ENCRYPTED] line and counts one
    encrypted secret. *)
Theorem encrypt_secrets_encrypts_empty_value (W : Collaborators)
  (mke : text) (mk : option text) :
  let key := if truthy mk then mk else getenv mke in
  encrypt_secrets empty_secret_file mke mk
  = match encrypt_value 0 [] key with
    | None => (Exited 1, HEADER_DISCLAIMER ++ [LF])
    | Some c =>
        (Returned 1,
         (HEADER_DISCLAIMER ++ [LF])
         ++ assignment_line (lit "FOO") []
         ++ encrypted_line (lit "FOO") c mke (signature_of key) (now 0))
    end.
Proof.
  intros key. unfold encrypt_secrets. fold key.
  change (readlines empty_secret_file) with [empty_secret_file].
  change (header_chunk [empty_secret_file])
    with (Some (HEADER_DISCLAIMER ++ [LF])).
  change (collect_encrypted_bases [empty_secret_file] (empty_set text))
    with (empty_set text).
  simpl encrypt_lines. rewrite encrypt_line_classify.
  change (classify (empty_set text) empty_secret_file)
    with (Fresh (lit "FOO") []).
  unfold written. simpl.
  destruct (encrypt_value 0 [] key) as [c|]; simpl.
  - rewrite ?app_nil_r. reflexivity.
  - reflexivity.
Qed.

(** C2, where the code departs from the specification.  Whenever the loop
    body encrypts a secret, the signature it stores is the last 8 characters
    of the base64 text of the SHA-512 digest of the key material alone:
    neither the cipher text, nor the timestamp, nor the key-variable name
    enters it. *)
Theorem stored_signature_hashes_key_only (W : Collaborators)
  (E : set text) (mke : text) (key : option text) (line : text)
  (count : nat) (chunk : text) :
  encrypt_line E mke key line count = Wrote chunk (S count) ->
  exists name c,
    encrypt_value count (secret_value_of line) key = Some c /\
    chunk = assignment_line name []
            ++ name ++ ENCRYPTED_SUFFIX ++ lit " = " ++ [dquote] ++ c
            ++ [dquote] ++ lit "    #" ++ mke ++ lit ","
            ++ last_n 8 (b64encode (sha512 (format_value key)))
            ++ lit "," ++ now count ++ [LF].
Proof.
  rewrite encrypt_line_classify.
  pose proof (classify_names E line) as Hn.
  destruct (classify E line) as [|name|name value].
  - intros H; inversion H; lia.
  - intros H; inversion H; lia.
  - destruct Hn as (_ & -> & _).
    destruct (encrypt_value count (secret_value_of line) key) as [c|] eqn:Ec;
      [|discriminate].
    intros H; inversion H; subst chunk. exists name, c. split; reflexivity.
Qed.

Lemma stored_signature_hashes_key_only_witness :
  exists name c,
    encrypt_value (Collaborators := sample) 0
      (secret_value_of (assignment_line (lit "FOO") (lit "bar")))
      (Some (lit "k")) = Some c /\
    assignment_line (lit "FOO") []
    ++ encrypted_line (lit "FOO") (hex (lit "Abar")) APP_KEY
         (signature_of (W := sample) (Some (lit "k"))) (lit "2024-06-18 10:00:00")
    = assignment_line name []
      ++ name ++ ENCRYPTED_SUFFIX ++ lit " = " ++ [dquote] ++ c
      ++ [dquote] ++ lit "    #" ++ APP_KEY ++ lit ","
      ++ last_n 8 (b64encode (Collaborators := sample)
                     (sha512 (Collaborators := sample)
                        (format_value (Some (lit "k")))))
      ++ lit "," ++ now (Collaborators := sample) 0 ++ [LF].
Proof.
  apply (stored_signature_hashes_key_only sample (empty_set text) APP_KEY
           (Some (lit "k")) (assignment_line (lit "FOO") (lit "bar")) 0).
  vm_compute. reflexivity.
Defined.

(* ================================================================== *)
(** ** The first line of a file *)




(* ================================================================== *)
(** ** A failing cipher *)

Lemma encrypt_lines_app {W : Collaborators} E mke key pre rest count c w :
  encrypt_lines E mke key pre count = (Returned c, w) ->
  encrypt_lines E mke key (pre ++ rest) count
  = written w (encrypt_lines E mke key rest c).
Proof.
  revert count w. induction pre as [|l pre IH]; intros count w; simpl.
  - intros H; inversion H; subst. unfold written.
    now destruct (encrypt_lines E mke key rest c).
  - destruct (encrypt_line E mke key l count) as [chunk count'|code|e];
      [|discriminate|discriminate].
    destruct (encrypt_lines E mke key pre count') as [r w'] eqn:Hp.
    unfold written at 1. simpl. intros H; inversion H; subst r w.
    rewrite (IH count' w' Hp). unfold written. simpl.
    now rewrite app_assoc.
Qed.

(** C6, as amended.  When the cipher fails on a secret, [encrypt_secrets]
    exits with status 1 and the file is left truncated: it holds the
    disclaimer (when it was missing) and what the pass wrote for the lines
    before the failing one; the failing line and the lines after it are not
    written. *)
Theorem encrypt_secrets_failure_truncates (W : Collaborators)
  (content mke : text) (mk : option text) (pre : list text) (line : text)
  (post : list text) (header : text) (count : nat) (w name value : text) :
  let key := if truthy mk then mk else getenv mke in
  let E := collect_encrypted_bases (readlines content) (empty_set text) in
  readlines content = pre ++ line :: post ->
  header_chunk (readlines content) = Some header ->
  encrypt_lines E mke key pre 0 = (Returned count, w) ->
  classify E line = Fresh name value ->
  encrypt_value count value key = None ->
  encrypt_secrets content mke mk = (Exited 1, header ++ w).
Proof.
  intros key E Hl Hh Hpre Hc Hv. unfold encrypt_secrets. fold key E.
  rewrite Hh, Hl. rewrite (encrypt_lines_app E mke key pre _ 0 count w Hpre).
  simpl. rewrite encrypt_line_classify, Hc, Hv.
  unfold written. simpl. now rewrite app_nil_r.
Qed.

Lemma encrypt_secrets_failure_truncates_witness :
  encrypt_secrets (W := sample) scenario_a UNSET_KEY None
  = (Exited 1, (HEADER_DISCLAIMER ++ [LF]) ++ key_declaration).
Proof.
  apply (encrypt_secrets_failure_truncates sample scenario_a UNSET_KEY None
           [key_declaration] (assignment_line (lit "FOO") (lit "bar")) []
           (HEADER_DISCLAIMER ++ [LF]) 0 key_declaration
           (lit "FOO") (lit "bar")).
  - vm_compute. reflexivity.
  - vm_compute. reflexivity.
  - vm_compute. reflexivity.
  - vm_compute. reflexivity.
  - reflexivity.
Defined.

(** C6: with no usable key the pass stops at the first secret, and the file
    has lost that secret. *)
Lemma encrypt_secrets_failure_changes_file :
  encrypt_secrets (W := sample) scenario_a UNSET_KEY None
  = (Exited 1, (HEADER_DISCLAIMER ++ [LF]) ++ key_declaration) /\
  (HEADER_DISCLAIMER ++ [LF]) ++ key_declaration <> scenario_a.
Proof.
  split; [vm_compute; reflexivity | vm_compute; discriminate].
Qed.

(* ================================================================== *)
(** ** [delete_secret] *)

Lemma delete_lines_filter secret_name lines :
  delete_lines secret_name lines
  = concat (filter (survives_delete secret_name) lines).
Proof.
  induction lines as [|line rest IH]; simpl; [reflexivity|].
  rewrite IH. unfold delete_line, survives_delete, secret_name_of.
  destruct (comment_or_blank line); simpl; [reflexivity|].
  destruct (text_eqb (strip (split_eq_head line)) secret_name); reflexivity.
Qed.

Lemma encrypted_line_name line g :
  encrypted_pattern_base line = Some g ->
  secret_name_of line = g ++ ENCRYPTED_SUFFIX.
Proof.
  unfold encrypted_pattern_base.
  destruct (encrypted_run line) as [run|] eqn:E; [|discriminate].
  simpl. intros H; inversion H.
  destruct (encrypted_run_parts line run E)
    as (ws & ws' & r & Hl & Hws & Hws' & Hw & _ & Hrun).
  destruct (named_line_parts ws run ws' r Hws Hws' Hw) as (_ & Hn & _).
  rewrite <- Hl in Hn. now rewrite Hn, Hrun at 1.
Qed.

(** C4, as amended.  [delete_secret] removes exactly the lines, other than
    comments and blank lines, whose text before the first ["="], stripped, is
    the given name, and copies all others in order.  The encrypted counterpart
    [<name>_ENCRYPTED = ...] of the name is among the lines it copies. *)
Theorem delete_secret_removes_named_lines (content secret_name : text) :
  delete_secret content secret_name
  = (Returned tt,
     concat (filter (survives_delete secret_name) (readlines content))) /\
  (forall line,
      re_match encrypted_pattern_of_encrypt line = Some [secret_name] ->
      survives_delete secret_name line = true).
Proof.
  split.
  - unfold delete_secret. now rewrite delete_lines_filter.
  - intros line H. unfold survives_delete.
    rewrite re_match_encrypted_pattern_of_encrypt in H.
    destruct (encrypted_pattern_base line) as [g|] eqn:Hg; [|discriminate].
    inversion H; subst g.
    rewrite (encrypted_line_name line secret_name Hg).
    replace (text_eqb (secret_name ++ ENCRYPTED_SUFFIX) secret_name) with false.
    + apply orb_true_r.
    + symmetry. apply text_eqb_neq. intros Heq.
      apply (f_equal (@length ascii)) in Heq. rewrite length_app in Heq.
      simpl in Heq. lia.
Qed.

Lemma delete_secret_removes_named_lines_witness :
  survives_delete (lit "FOO")
    (encrypted_line (lit "FOO") (hex (lit "Abar")) APP_KEY
       (hex (lit "s3cr3t-k3y")) (lit "2024-06-18 10:00:00")) = true.
Proof.
  apply (proj2 (delete_secret_removes_named_lines scenario_a_encrypted (lit "FOO"))).
  vm_compute. reflexivity.
Defined.

(** C4: deleting [FOO] from the encrypted Scenario A keeps the
    [FOO_ENCRYPTED] line. *)
Lemma delete_secret_keeps_encrypted_line :
  readlines (snd (delete_secret scenario_a_encrypted (lit "FOO")))
  = [HEADER_DISCLAIMER ++ [LF]; key_declaration;
     encrypted_line (lit "FOO") (hex (lit "Abar")) APP_KEY
       (hex (lit "s3cr3t-k3y")) (lit "2024-06-18 10:00:00")].
Proof. vm_compute. reflexivity. Qed.

(* ================================================================== *)
(** ** Lines that are no declarations *)

Lemma written_nothing {A : Type} (r : outcome A * text) : written [] r = r.
Proof. now destruct r. Qed.

Lemma decrypt_line_unrecognized {W : Collaborators} E key line :
  recognized line = false -> decrypt_line E key line = Wrote [] tt.
Proof.
  unfold recognized, decrypt_line, comment_or_blank. intros H.
  apply orb_false_iff in H as [-> H].
  now destruct (re_search secret_pattern line).
Qed.

(** The loop of [decrypt_secrets] ends and writes as it does without the
    lines it does not recognize. *)
Lemma decrypt_lines_filter {W : Collaborators} E key lines :
  decrypt_lines E key lines = decrypt_lines E key (filter recognized lines).
Proof.
  induction lines as [|l ls IH]; [reflexivity|].
  cbn [filter]. destruct (recognized l) eqn:Hr; cbn [decrypt_lines].
  - now rewrite IH.
  - now rewrite (decrypt_line_unrecognized E key l Hr), written_nothing.
Qed.

(** C7, as amended.  [decrypt_secrets] removes every line that is neither a
    comment nor blank and in which its pattern finds no declaration: on any
    file, with the key variable set, the pass ends and writes exactly as its
    loop does on the lines of the file without those lines (the set of
    encrypted names being that of the whole file), and the loop body writes
    nothing for such a line.  [encrypt_secrets] copies a line that holds no
    ["="], and [delete_secret] copies a line whose name part is not the given
    name. *)
Theorem unrecognized_lines_dropped_by_decrypt (W : Collaborators) :
  (forall content mke mk key,
      getenv mke = Some key -> key <> [] ->
      let lines := readlines content in
      let E' := collect_encrypted_names lines (empty_set text) in
      decrypt_secrets content mke mk
      = decrypt_lines E' key (filter recognized lines)) /\
  (forall E' key line,
      comment_or_blank line = false ->
      re_search secret_pattern line = None ->
      decrypt_line E' key line = Wrote [] tt) /\
  (forall E mke key line count,
      contains equals line = false ->
      encrypt_line E mke key line count = Wrote line count) /\
  (forall secret_name line,
      secret_name_of line <> secret_name ->
      delete_line secret_name line = line).
Proof.
  split; [|split; [|split]].
  - intros content mke mk key Hk Hne lines E'. unfold decrypt_secrets.
    rewrite Hk. destruct key as [|c key]; [congruence|].
    apply decrypt_lines_filter.
  - intros E' key line Hc Hs. apply decrypt_line_unrecognized.
    unfold recognized. now rewrite Hc, Hs.
  - intros E mke key line count H. unfold encrypt_line. rewrite H.
    now rewrite orb_true_r.
  - intros secret_name line H. unfold delete_line.
    destruct (comment_or_blank line); [reflexivity|].
    apply text_eqb_neq in H. unfold secret_name_of in H. now rewrite H.
Qed.

Lemma unrecognized_lines_dropped_by_decrypt_witness :
  decrypt_secrets (W := sample) mixed_file APP_KEY None
  = decrypt_lines (W := sample)
      (collect_encrypted_names (readlines mixed_file) (empty_set text))
      (lit "s3cr3t-k3y") (filter recognized (readlines mixed_file)).
Proof.
  apply (proj1 (unrecognized_lines_dropped_by_decrypt sample) mixed_file APP_KEY
           None (lit "s3cr3t-k3y")).
  - reflexivity.
  - discriminate.
Defined.

(** C7: [decrypt_secrets] drops both lines of [odd_file], one of which holds
    no declaration at all. *)
Lemma decrypt_secrets_drops_unrecognized_line :
  readlines odd_file
  = [lit "db password = hunter2" ++ [LF]; lit "remember to rotate" ++ [LF]] /\
  decrypt_secrets (W := sample) odd_file APP_KEY None = (Returned Rewritten, []).
Proof. split; vm_compute; reflexivity. Qed.

(* ================================================================== *)
(** ** The pattern of [decrypt_secrets] on written lines *)

Lemma assignment_match_here_canonical name value rest :
  is_identifier name = true ->
  forallb not_quote value = true -> contains LF value = false ->
  assignment_match_here
    (name ++ lit " = " ++ [dquote] ++ value ++ dquote :: rest)
  = Some (name, value).
Proof.
  intros Hid Hq Hlf. pose proof (identifier_words name Hid) as Hw.
  destruct (identifier_head name Hid) as (h & t & En & Hh).
  set (tail := value ++ dquote :: rest).
  set (line := name ++ lit " = " ++ [dquote] ++ tail).
  assert (T1 : takewhile is_word line = name).
  { unfold line. rewrite takewhile_app by assumption.
    change (takewhile is_word (lit " = " ++ [dquote] ++ tail)) with (@nil ascii).
    apply app_nil_r. }
  assert (D1 : dropwhile isspace (dropwhile is_word line)
               = equals :: " "%char :: dquote :: tail).
  { unfold line. rewrite dropwhile_app by assumption. reflexivity. }
  assert (T2 : takewhile not_quote tail = value).
  { unfold tail. rewrite takewhile_app by assumption.
    rewrite takewhile_stop by reflexivity. apply app_nil_r. }
  assert (D2 : dropwhile not_quote tail = dquote :: rest).
  { unfold tail. rewrite dropwhile_app by assumption.
    now rewrite dropwhile_stop by reflexivity. }
  unfold assignment_match_here. fold line.
  destruct line as [|c l] eqn:El.
  { unfold line in El. rewrite En in El. discriminate. }
  assert (Hc : c = h).
  { unfold line in El. rewrite En in El. simpl in El. congruence. }
  rewrite Hc, Hh. rewrite <- Hc, D1.
  change (Ascii.eqb equals equals) with true. cbv iota.
  change (dropwhile isspace (" "%char :: dquote :: tail)) with (dquote :: tail).
  change (is_quote dquote) with true. cbv iota.
  rewrite T2, D2, Hlf, T1. reflexivity.
Qed.

Lemma search_assignment_here s m :
  assignment_match_here s = Some m -> search_assignment s = Some m.
Proof.
  intros H. destruct s as [|c s]; [discriminate H|].
  change (search_assignment (c :: s))
    with (match assignment_match_here (c :: s) with
          | Some m' => Some m'
          | None => search_assignment s
          end).
  now rewrite H.
Qed.

Lemma search_assignment_line name value :
  is_identifier name = true ->
  forallb not_quote value = true -> contains LF value = false ->
  search_assignment (assignment_line name value) = Some (name, value).
Proof.
  intros Hid Hq Hlf. apply search_assignment_here.
  apply (assignment_match_here_canonical name value [LF]); assumption.
Qed.


Lemma no_newline_contains_LF s : no_newline s = true -> contains LF s = false.
Proof.
  induction s as [|c s IH]; simpl; [reflexivity|]. intros H.
  apply no_newline_cons in H as (Hc & _ & Hs).
  now rewrite Ascii.eqb_sym, Hc, IH.
Qed.

Lemma collect_encrypted_names_In lines acc g :
  set_In g (collect_encrypted_names lines acc) <->
  set_In g acc \/ exists l, In l lines /\ encrypted_run l = Some g.
Proof.
  revert acc. induction lines as [|line rest IH]; intros acc; simpl.
  - split; [auto|]. intros [H|(l & [] & _)]. exact H.
  - rewrite re_match_encrypted_pattern_of_decrypt.
    unfold encrypted_pattern_full.
    destruct (encrypted_run line) as [g'|] eqn:E; cbn [option_map];
      [change (group [g'] 1) with g'|]; rewrite IH.
    + split.
      * intros [H|(l & Hl & Hg)].
        -- apply set_add_elim in H as [->|H]; [right|left; exact H].
           exists line; auto.
        -- right; exists l; auto.
      * intros [H|(l & [<-|Hl] & Hg)].
        -- left. now apply set_add_intro1.
        -- left. apply set_add_intro2. congruence.
        -- right; exists l; auto.
    + split.
      * intros [H|(l & Hl & Hg)]; [auto|]. right; exists l; auto.
      * intros [H|(l & [<-|Hl] & Hg)]; [auto|congruence|].
        right; exists l; auto.
Qed.

Lemma suffix_name_not_key_declaration name :
  endswith ENCRYPTED_SUFFIX name = true -> text_eqb name MASTER_KEY_ENV = false.
Proof.
  intros H. apply text_eqb_neq. intros ->. discriminate.
Qed.

Lemma encrypted_run_assignment_line g d :
  forallb is_word g = true -> endswith ENCRYPTED_SUFFIX g = false ->
  encrypted_run (assignment_line g d) = None.
Proof.
  intros Hw He. unfold encrypted_run, assignment_line.
  assert (D : dropwhile isspace (g ++ lit " = " ++ [dquote] ++ d ++ [dquote; LF])
              = g ++ lit " = " ++ [dquote] ++ d ++ [dquote; LF]
              \/ g = []).
  { destruct g as [|c g]; [now right|]. left. apply dropwhile_stop.
    simpl in Hw. apply andb_true_iff in Hw as [Hc _].
    now apply word_not_space. }
  destruct D as [D| ->]; [|reflexivity].
  rewrite D, takewhile_app by assumption.
  change (takewhile is_word (lit " = " ++ [dquote] ++ d ++ [dquote; LF]))
    with (@nil ascii).
  rewrite app_nil_r. destruct g as [|c g]; [reflexivity|].
  rewrite He. now rewrite !andb_false_r.
Qed.

(* ================================================================== *)
(** ** Values read off a line hold no line break *)







(* ================================================================== *)
(** ** The loop body of [decrypt_secrets] on written lines *)

Lemma encrypted_run_not_comment line run :
  encrypted_run line = Some run -> comment_or_blank line = false.
Proof.
  intros H.
  destruct (encrypted_run_parts line run H)
    as (ws & ws' & r & Hl & Hws & _ & Hw & Hid & Hrun).
  assert (Hne : exists c t, run = c :: t /\ is_word c = true).
  { destruct run as [|c t].
    - rewrite Hrun in Hid.
      destruct (drop_last_n 10 []); discriminate.
    - exists c, t. simpl in Hw. apply andb_true_iff in Hw. tauto. }
  destruct Hne as (c & t & -> & Hc).
  unfold comment_or_blank. apply orb_false_iff. split.
  - rewrite Hl. destruct ws as [|w ws]; simpl.
    + now rewrite (word_not_hash c Hc).
    + simpl in Hws. apply andb_true_iff in Hws as [Hsp _].
      destruct (Ascii.eqb hash w) eqn:E; [|reflexivity].
      apply Ascii.eqb_eq in E. subst w. discriminate.
  - apply text_eqb_neq. intros Hs. apply strip_by_nil in Hs.
    rewrite Hl, !forallb_app in Hs. simpl in Hs.
    rewrite (word_not_space c Hc) in Hs. simpl in Hs.
    rewrite andb_false_r in Hs. discriminate.
Qed.

Section DecryptBody.

Context {W : Collaborators}.
Variables (E' : set text) (key : text).

Lemma decrypt_line_comment line :
  comment_or_blank line = true -> decrypt_line E' key line = Wrote line tt.
Proof.
  unfold decrypt_line, comment_or_blank. now intros ->.
Qed.

Lemma decrypt_line_search line :
  comment_or_blank line = false ->
  decrypt_line E' key line =
  match search_assignment line with
  | Some (secret_name, encrypted_value) =>
      if text_eqb secret_name MASTER_KEY_ENV then Wrote line tt
      else if negb (endswith ENCRYPTED_SUFFIX secret_name)
              && negb (set_mem text_eq_dec (secret_name ++ ENCRYPTED_SUFFIX) E')
      then Wrote (assignment_line secret_name encrypted_value) tt
      else if endswith ENCRYPTED_SUFFIX secret_name then
        match decrypt_value encrypted_value key with
        | None => Throw CryptoError
        | Some decrypted_value =>
            Wrote (assignment_line (drop_last_n 10 secret_name)
                     decrypted_value) tt
        end
      else Wrote [] tt
  | None => Wrote [] tt
  end.
Proof.
  unfold decrypt_line, comment_or_blank. intros ->.
  rewrite re_search_secret_pattern.
  now destruct (search_assignment line) as [[name value]|].
Qed.

Lemma comment_or_blank_identifier n rest :
  is_identifier n = true -> comment_or_blank (n ++ rest) = false.
Proof.
  intros Hid. destruct (identifier_head n Hid) as (h & t & -> & Hh).
  apply comment_or_blank_word. now apply word_start_is_word.
Qed.



End DecryptBody.
(* ================================================================== *)
(** ** The disclaimer header *)

Lemma proper_lines_filter (f : text -> bool) ls :
  proper_lines ls -> proper_lines (filter f ls).
Proof.
  induction 1 as [|l Hne Hl|body ls Hb Hls IH]; cbn [filter].
  - constructor.
  - destruct (f l); now constructor.
  - destruct (f (body ++ [LF])); [now constructor | assumption].
Qed.

Lemma readlines_delete_secret content secret_name :
  readlines (snd (delete_secret content secret_name))
  = filter (survives_delete secret_name) (readlines content).
Proof.
  unfold delete_secret. cbn [snd]. rewrite delete_lines_filter.
  apply readlines_concat, proper_lines_filter, readlines_proper.
Qed.










(* ================================================================== *)
(** ** Encrypting and then decrypting *)

Section RoundTrip.

Context {W : Collaborators}.
Variables (E E' : set text) (mke key : text).
Hypothesis HE :
  forall g, set_In g E ->
            is_identifier g = true /\ set_In (g ++ ENCRYPTED_SUFFIX) E'.





End RoundTrip.






(* ================================================================== *)
(** ** The scenarios, run on the sample collaborators *)

Example scenario_a_encrypt :
  fst (encrypt_secrets (W := sample) scenario_a APP_KEY None) = Returned 1 /\
  readlines scenario_a_encrypted
  = [HEADER_DISCLAIMER ++ [LF]; key_declaration;
     assignment_line (lit "FOO") [];
     encrypted_line (lit "FOO") (hex (lit "Abar")) APP_KEY
       (hex (lit "s3cr3t-k3y")) (lit "2024-06-18 10:00:00")].
Proof. split; vm_compute; reflexivity. Qed.

Example scenario_b_decrypt :
  decrypt_secrets (W := sample) scenario_a_encrypted APP_KEY None
  = (Returned Rewritten,
     (HEADER_DISCLAIMER ++ [LF]) ++ scenario_a).
Proof. vm_compute. reflexivity. Qed.

Example mixed_file_round_trip :
  readlines
    (snd (decrypt_secrets (W := sample)
            (snd (encrypt_secrets (W := sample) mixed_file APP_KEY None))
            APP_KEY None))
  = [HEADER_DISCLAIMER ++ [LF]; lit "# project secrets" ++ [LF]; [LF];
     key_declaration; assignment_line (lit "BAZ") (lit "qux");
     assignment_line (lit "FOO") (lit "bar")].
Proof. vm_compute. reflexivity. Qed.

Example two_secrets_share_signature :
  encrypt_secrets (W := sample) two_secrets APP_KEY None
  = (Returned 2,
     (HEADER_DISCLAIMER ++ [LF])
     ++ assignment_line (lit "A") []
     ++ encrypted_line (lit "A") (hex (lit "Ax")) APP_KEY
          (hex (lit "s3cr3t-k3y")) (lit "2024-06-18 10:00:00")
     ++ assignment_line (lit "B") []
     ++ encrypted_line (lit "B") (hex (lit "By")) APP_KEY
          (hex (lit "s3cr3t-k3y")) (lit "2024-06-18 10:00:00")).
Proof. vm_compute. reflexivity. Qed.
(* ================================================================== *)
(** ** [set_master_key], [list_secrets] and [delete_secret] *)

Lemma space_not_M c : isspace c = true -> Ascii.eqb "M"%char c = false.
Proof. ascii_cases c. Qed.

(** The pattern of [set_master_key] computes [is_key_declaration]. *)
Lemma re_match_master_key_env_pattern line :
  re_match master_key_env_pattern line
  = if is_key_declaration line then Some [] else None.
Proof.
  unfold re_match, master_key_env_pattern, is_key_declaration.
  change (seq [Bol; Star isspace; Lit MASTER_KEY_ENV; Star isspace;
               Chr is_equals])
    with (Cat Bol (Cat (Star isspace)
            (Cat (Lit MASTER_KEY_ENV) (seq [Star isspace; Chr is_equals])))).
  cbn [run]. rewrite Nat.eqb_refl.
  rewrite star_greedy_no_backtrack.
  - cbv zeta. destruct (startswith MASTER_KEY_ENV (dropwhile isspace line));
      [|reflexivity].
    cbn [andb]. apply run_assigns.
  - intros c t Hc. unfold MASTER_KEY_ENV. cbn [lit list_ascii_of_string startswith].
    rewrite (space_not_M c Hc). reflexivity.
Qed.

Lemma set_master_key_line_scan e line :
  set_master_key_line e line
  = if is_key_declaration line then assignment_line MASTER_KEY_ENV e else line.
Proof.
  unfold set_master_key_line. rewrite re_match_master_key_env_pattern.
  now destruct (is_key_declaration line).
Qed.

Lemma set_master_key_lines_map e lines :
  set_master_key_lines e lines = concat (map (set_master_key_line e) lines).
Proof.
  induction lines as [|l ls IH]; [reflexivity|].
  cbn [set_master_key_lines map concat]. now rewrite IH.
Qed.

(** A line on which a word run follows the leading white space is neither a
    comment nor blank. *)
Lemma word_line_not_comment ws c rest :
  forallb isspace ws = true -> is_word c = true ->
  comment_or_blank (ws ++ c :: rest) = false.
Proof.
  intros Hws Hc. unfold comment_or_blank. apply orb_false_iff. split.
  - destruct ws as [|w ws]; simpl.
    + now rewrite (word_not_hash c Hc).
    + simpl in Hws. apply andb_true_iff in Hws as [Hsp _].
      destruct (Ascii.eqb hash w) eqn:E; [|reflexivity].
      apply Ascii.eqb_eq in E. subst w. discriminate.
  - apply text_eqb_neq. intros Hs. apply strip_by_nil in Hs.
    rewrite forallb_app in Hs. simpl in Hs.
    rewrite (word_not_space c Hc) in Hs. simpl in Hs.
    rewrite andb_false_r in Hs. discriminate.
Qed.

Lemma key_declaration_parts line :
  is_key_declaration line = true ->
  exists ws ws' r,
    line = ws ++ MASTER_KEY_ENV ++ ws' ++ equals :: r /\
    forallb isspace ws = true /\ forallb isspace ws' = true.
Proof.
  unfold is_key_declaration. cbv zeta. intros H.
  apply andb_true_iff in H as [Hs Ha].
  destruct (dropwhile_suffix isspace line) as (ws & Hl & Hws).
  apply startswith_split in Hs.
  change (length MASTER_KEY_ENV) with 14 in Hs.
  unfold assigns in Ha.
  destruct (dropwhile_suffix isspace
              (skipn 14 (dropwhile isspace line))) as (ws' & Ht & Hws').
  destruct (dropwhile isspace (skipn 14 (dropwhile isspace line)))
    as [|e r]; [discriminate|].
  apply Ascii.eqb_eq in Ha. subst e.
  exists ws, ws', r. repeat split; try assumption.
  rewrite Hl at 1. f_equal. rewrite Hs at 1. f_equal. exact Ht.
Qed.

Lemma key_name_words : forallb is_word MASTER_KEY_ENV = true.
Proof. reflexivity. Qed.

(** A key declaration is listed under the name [MASTER_KEY_ENV]. *)
Lemma list_line_key_declaration line :
  is_key_declaration line = true -> list_line line = [MASTER_KEY_ENV].
Proof.
  intros H. destruct (key_declaration_parts line H)
    as (ws & ws' & r & Hl & Hws & Hws').
  unfold list_line.
  change (startswith [hash] line || text_eqb (strip line) [])
    with (comment_or_blank line).
  assert (Hc : comment_or_blank line = false).
  { rewrite Hl. apply (word_line_not_comment ws "M"%char); [assumption|].
    reflexivity. }
  rewrite Hc. f_equal.
  pose proof (named_line_parts ws MASTER_KEY_ENV ws' r Hws Hws' key_name_words)
    as (_ & Hn & _).
  rewrite Hl. exact Hn.
Qed.

Lemma is_key_declaration_assignment_line e :
  is_key_declaration (assignment_line MASTER_KEY_ENV e) = true.
Proof. reflexivity. Qed.

Lemma assignment_line_body n v :
  assignment_line n v = (n ++ lit " = " ++ [dquote] ++ v ++ [dquote]) ++ [LF].
Proof. unfold assignment_line. now rewrite <- !app_assoc. Qed.

(** Replacing lines by themselves or by complete lines keeps a list of lines
    what [readlines] would return. *)
Lemma proper_lines_map (f : text -> text) ls :
  (forall l, f l = l \/
             exists body, f l = body ++ [LF] /\ no_newline body = true) ->
  proper_lines ls -> proper_lines (map f ls).
Proof.
  intros Hf. induction 1 as [|l Hne Hl|body ls Hb Hls IH]; cbn [map].
  - constructor.
  - destruct (Hf l) as [-> | (body & -> & Hb)].
    + now constructor.
    + constructor; [assumption | constructor].
  - destruct (Hf (body ++ [LF])) as [-> | (body' & -> & Hb')];
      now constructor.
Qed.

Lemma filter_all {A : Type} (f : A -> bool) (l : list A) :
  (forall x, In x l -> f x = true) -> filter f l = l.
Proof.
  induction l as [|x l IH]; intros H; [reflexivity|].
  cbn [filter]. rewrite (H x (or_introl eq_refl)). f_equal.
  apply IH. intros y Hy. apply H. now right.
Qed.

Lemma filter_idem {A : Type} (f : A -> bool) (l : list A) :
  filter f (filter f l) = filter f l.
Proof.
  apply filter_all. intros x Hx. now apply filter_In in Hx.
Qed.

Lemma list_line_name line :
  list_line line
  = if comment_or_blank line then [] else [secret_name_of line].
Proof. reflexivity. Qed.

Lemma readlines_set_master_key content e :
  no_newline e = true ->
  readlines (snd (set_master_key content e))
  = map (set_master_key_line e) (readlines content).
Proof.
  intros He. unfold set_master_key. cbn [snd].
  rewrite set_master_key_lines_map. apply readlines_concat.
  apply proper_lines_map; [|apply readlines_proper].
  intros l. rewrite set_master_key_line_scan.
  destruct (is_key_declaration l); [right | now left].
  eexists. split; [apply assignment_line_body|].
  rewrite !no_newline_app, He. reflexivity.
Qed.

(** X1.  Setting the key variable twice is setting it to the second name:
    when the first name holds no line break,
    [set_master_key] with [e2] after [set_master_key] with [e1] leaves the
    file that [set_master_key] with [e2] alone leaves.  In particular the
    command is idempotent. *)
Theorem set_master_key_last_wins (content e1 e2 : text) :
  no_newline e1 = true ->
  set_master_key (snd (set_master_key content e1)) e2
  = set_master_key content e2.
Proof.
  intros He1. unfold set_master_key at 1 3. cbv zeta. f_equal.
  rewrite (readlines_set_master_key content e1 He1).
  rewrite !set_master_key_lines_map, map_map. f_equal.
  apply map_ext. intros l. rewrite !set_master_key_line_scan.
  destruct (is_key_declaration l) eqn:E.
  - now rewrite is_key_declaration_assignment_line.
  - now rewrite E.
Qed.

Lemma set_master_key_last_wins_witness :
  set_master_key (snd (set_master_key scenario_a UNSET_KEY)) APP_KEY
  = set_master_key scenario_a APP_KEY.
Proof. apply (set_master_key_last_wins scenario_a UNSET_KEY APP_KEY). reflexivity. Defined.

(** X2.  [set_master_key] adds no declaration: on a file in which
    [list_secrets] finds no [MASTER_KEY_ENV], it writes back what it read,
    which is the file itself when the file holds no carriage return. *)
Theorem set_master_key_needs_declaration (content e : text) :
  ~ In MASTER_KEY_ENV (list_secrets content) ->
  set_master_key content e = (Returned tt, universal_newlines content) /\
  (no_cr content = true -> set_master_key content e = (Returned tt, content)).
Proof.
  intros Hno.
  assert (H : set_master_key content e = (Returned tt, universal_newlines content)).
  { unfold set_master_key. cbv zeta. f_equal.
    rewrite set_master_key_lines_map.
    transitivity (concat (readlines content));
      [|apply concat_split_keepends].
    f_equal.
    rewrite <- (map_id (readlines content)) at 2.
    apply map_ext_in. intros l Hl. rewrite set_master_key_line_scan.
    destruct (is_key_declaration l) eqn:E; [|reflexivity].
    exfalso. apply Hno. unfold list_secrets. apply in_flat_map.
    exists l. split; [assumption|].
    rewrite (list_line_key_declaration l E). now left. }
  split; [exact H|].
  intros Hcr. now rewrite H, universal_newlines_id.
Qed.

Lemma set_master_key_needs_declaration_witness :
  set_master_key two_secrets APP_KEY = (Returned tt, two_secrets).
Proof.
  apply (set_master_key_needs_declaration two_secrets APP_KEY).
  - vm_compute. intros [H|[H|[]]]; discriminate.
  - reflexivity.
Defined.

(** X3.  [set_master_key] changes no name that [list_secrets] prints: for a
    name without line break, the listing after the command is the listing
    before it. *)
Theorem set_master_key_keeps_listing (content e : text) :
  no_newline e = true ->
  list_secrets (snd (set_master_key content e)) = list_secrets content.
Proof.
  intros He. unfold list_secrets.
  rewrite (readlines_set_master_key content e He).
  rewrite !flat_map_concat_map, map_map. f_equal.
  apply map_ext. intros l. rewrite set_master_key_line_scan.
  destruct (is_key_declaration l) eqn:E; [|reflexivity].
  rewrite (list_line_key_declaration l E).
  apply list_line_key_declaration, is_key_declaration_assignment_line.
Qed.

Lemma set_master_key_keeps_listing_witness :
  list_secrets (snd (set_master_key scenario_a UNSET_KEY))
  = list_secrets scenario_a.
Proof. apply (set_master_key_keeps_listing scenario_a UNSET_KEY). reflexivity. Defined.

(** X4.  [delete_secret] is idempotent: deleting a name from the file that
    a deletion of that name left changes nothing. *)
Theorem delete_secret_idempotent (content secret_name : text) :
  delete_secret (snd (delete_secret content secret_name)) secret_name
  = (Returned tt, snd (delete_secret content secret_name)).
Proof.
  unfold delete_secret at 1. cbv zeta. f_equal.
  rewrite readlines_delete_secret, delete_lines_filter, filter_idem.
  unfold delete_secret. cbn [snd]. symmetry. apply delete_lines_filter.
Qed.

Lemma listing_filter secret_name lines :
  flat_map list_line (filter (survives_delete secret_name) lines)
  = filter (fun name => negb (text_eqb name secret_name))
      (flat_map list_line lines).
Proof.
  induction lines as [|l ls IH]; [reflexivity|].
  cbn [filter flat_map]. rewrite filter_app, <- IH.
  unfold survives_delete at 1. rewrite list_line_name.
  destruct (comment_or_blank l) eqn:Ec; cbn [orb filter app].
  - cbn [flat_map]. now rewrite list_line_name, Ec.
  - destruct (text_eqb (secret_name_of l) secret_name); cbn [negb app].
    + reflexivity.
    + cbn [flat_map]. now rewrite list_line_name, Ec.
Qed.

(** X5.  [delete_secret] removes exactly the given name from the listing:
    after it, [list_secrets] prints what it printed before, in the same
    order, without the occurrences of that name. *)
Theorem delete_secret_listing (content secret_name : text) :
  list_secrets (snd (delete_secret content secret_name))
  = filter (fun name => negb (text_eqb name secret_name))
      (list_secrets content).
Proof.
  unfold list_secrets. rewrite readlines_delete_secret.
  apply listing_filter.
Qed.

(** X6.  Deleting a name that [list_secrets] does not print writes back
    what was read, which is the file itself when the file holds no carriage
    return. *)
Theorem delete_secret_of_unlisted_name (content secret_name : text) :
  ~ In secret_name (list_secrets content) ->
  delete_secret content secret_name
  = (Returned tt, universal_newlines content) /\
  (no_cr content = true ->
   delete_secret content secret_name = (Returned tt, content)).
Proof.
  intros Hno.
  assert (H : delete_secret content secret_name
              = (Returned tt, universal_newlines content)).
  { unfold delete_secret. cbv zeta. f_equal.
    rewrite delete_lines_filter, filter_all.
    - apply concat_split_keepends.
    - intros l Hl. unfold survives_delete.
      destruct (comment_or_blank l) eqn:Ec; [reflexivity|]. cbn [orb].
      destruct (text_eqb (secret_name_of l) secret_name) eqn:En;
        [|reflexivity].
      exfalso. apply Hno. unfold list_secrets. apply in_flat_map.
      exists l. split; [assumption|].
      rewrite list_line_name, Ec. left. now apply text_eqb_eq. }
  split; [exact H|].
  intros Hcr. now rewrite H, universal_newlines_id.
Qed.

Lemma delete_secret_of_unlisted_name_witness :
  delete_secret two_secrets (lit "FOO") = (Returned tt, two_secrets).
Proof.
  apply (delete_secret_of_unlisted_name two_secrets (lit "FOO")).
  - vm_compute. intros [H|[H|[]]]; discriminate.
  - reflexivity.
Defined.
(* ================================================================== *)
(** ** The key declaration, the two [encrypted_pattern]s and the ways the
       passes end *)

Lemma dropwhile_nil_forallb (p : ascii -> bool) s :
  dropwhile p s = [] -> forallb p s = true.
Proof.
  intros H. rewrite <- (takewhile_dropwhile p s), H, app_nil_r.
  apply takewhile_all.
Qed.

Lemma forallb_takewhile (q p : ascii -> bool) s :
  forallb q s = true -> forallb q (takewhile p s) = true.
Proof.
  intros H. rewrite <- (takewhile_dropwhile p s), forallb_app in H.
  now apply andb_true_iff in H as [H _].
Qed.

(** A match of [secret_pattern] at the head of [name = Q tail], for a quote
    [Q]: the value runs up to the first quote of the tail. *)
Lemma assignment_match_here_quoted name tail :
  is_identifier name = true ->
  dropwhile not_quote tail <> [] ->
  contains LF (takewhile not_quote tail) = false ->
  assignment_match_here (name ++ lit " = " ++ [dquote] ++ tail)
  = Some (name, takewhile not_quote tail).
Proof.
  intros Hid Hq Hlf. pose proof (identifier_words name Hid) as Hw.
  destruct (identifier_head name Hid) as (h & t & En & Hh).
  set (line := name ++ lit " = " ++ [dquote] ++ tail).
  assert (T1 : takewhile is_word line = name).
  { unfold line. rewrite takewhile_app by assumption.
    change (takewhile is_word (lit " = " ++ [dquote] ++ tail)) with (@nil ascii).
    apply app_nil_r. }
  assert (D1 : dropwhile isspace (dropwhile is_word line)
               = equals :: " "%char :: dquote :: tail).
  { unfold line. rewrite dropwhile_app by assumption. reflexivity. }
  unfold assignment_match_here. fold line.
  destruct line as [|c l] eqn:El.
  { unfold line in El. rewrite En in El. discriminate. }
  assert (Hc : c = h).
  { unfold line in El. rewrite En in El. simpl in El. congruence. }
  rewrite Hc, Hh. rewrite <- Hc, D1.
  change (Ascii.eqb equals equals) with true. cbv iota.
  change (dropwhile isspace (" "%char :: dquote :: tail)) with (dquote :: tail).
  change (is_quote dquote) with true. cbv iota.
  destruct (dropwhile not_quote tail) as [|q r]; [congruence|].
  now rewrite Hlf, T1.
Qed.

Lemma takewhile_before_stop (p : ascii -> bool) a c r :
  p c = false -> takewhile p (a ++ c :: r) = takewhile p a.
Proof.
  intros Hc. induction a as [|x a IH]; cbn [app takewhile].
  - now rewrite Hc.
  - destruct (p x); [now f_equal | reflexivity].
Qed.

Lemma key_declaration_not_comment e :
  comment_or_blank (assignment_line MASTER_KEY_ENV e) = false.
Proof.
  exact (comment_or_blank_identifier MASTER_KEY_ENV
           (lit " = " ++ [dquote] ++ e ++ [dquote; LF]) eq_refl).
Qed.

Lemma classify_key_declaration E e :
  classify E (assignment_line MASTER_KEY_ENV e) = Keep.
Proof.
  unfold classify. rewrite key_declaration_not_comment.
  rewrite assignment_line_shape.
  pose proof (named_line_parts [] MASTER_KEY_ENV [" "%char]
                (" "%char :: dquote :: e ++ [dquote; LF])
                eq_refl eq_refl key_name_words) as (Hc & Hn & _).
  cbv zeta in Hc, Hn. rewrite Hc, Hn. cbn [negb orb].
  now rewrite text_eqb_refl.
Qed.

Lemma decrypt_line_key_declaration {W : Collaborators} E' key e :
  no_newline e = true ->
  decrypt_line E' key (assignment_line MASTER_KEY_ENV e)
  = Wrote (assignment_line MASTER_KEY_ENV e) tt.
Proof.
  intros He.
  rewrite decrypt_line_search by apply key_declaration_not_comment.
  assert (Hs : search_assignment (assignment_line MASTER_KEY_ENV e)
               = Some (MASTER_KEY_ENV, takewhile not_quote (e ++ [dquote; LF]))).
  { apply search_assignment_here.
    apply (assignment_match_here_quoted MASTER_KEY_ENV (e ++ [dquote; LF])).
    - reflexivity.
    - intros H. apply dropwhile_nil_forallb in H.
      rewrite forallb_app in H. apply andb_true_iff in H as [_ H].
      discriminate H.
    - apply no_newline_contains_LF.
      rewrite takewhile_before_stop by reflexivity.
      now apply forallb_takewhile. }
  rewrite Hs. now rewrite text_eqb_refl.
Qed.

(** X7.  The declaration that [set_master_key] writes is copied by both
    passes: for a name without line break and a line that
    [master_key_env_pattern] matches, the loop bodies of [encrypt_secrets]
    and of [decrypt_secrets] write the replacement line back as it is,
    whatever the name holds otherwise. *)
Theorem key_declaration_survives_passes (W : Collaborators)
  (e line : text) :
  no_newline e = true ->
  re_match master_key_env_pattern line <> None ->
  let declaration := set_master_key_line e line in
  (forall E mke key count,
      encrypt_line E mke key declaration count = Wrote declaration count) /\
  (forall E' key, decrypt_line E' key declaration = Wrote declaration tt).
Proof.
  intros He Hm declaration.
  assert (Hd : declaration = assignment_line MASTER_KEY_ENV e).
  { unfold declaration, set_master_key_line.
    destruct (re_match master_key_env_pattern line); congruence. }
  rewrite Hd. split.
  - intros E mke key count.
    now rewrite encrypt_line_classify, classify_key_declaration.
  - intros E' key. now apply decrypt_line_key_declaration.
Qed.

Lemma key_declaration_survives_passes_witness :
  decrypt_line (W := sample) (empty_set text) (lit "s3cr3t-k3y")
    (set_master_key_line (lit "it's") key_declaration)
  = Wrote (set_master_key_line (lit "it's") key_declaration) tt.
Proof.
  apply (key_declaration_survives_passes sample (lit "it's") key_declaration).
  - reflexivity.
  - vm_compute. discriminate.
Defined.

(** X8.  The two [encrypted_pattern]s agree: the pattern of
    [encrypt_secrets] matches a line with group [g] exactly when the pattern
    of [decrypt_secrets] matches it with group [g ++ "_ENCRYPTED"]. *)
Theorem encrypted_patterns_agree (line g : text) :
  re_match encrypted_pattern_of_encrypt line = Some [g] <->
  re_match encrypted_pattern_of_decrypt line = Some [g ++ ENCRYPTED_SUFFIX].
Proof.
  rewrite re_match_encrypted_pattern_of_encrypt,
    re_match_encrypted_pattern_of_decrypt.
  unfold encrypted_pattern_base, encrypted_pattern_full.
  destruct (encrypted_run line) as [run|] eqn:E; cbn [option_map].
  - destruct (encrypted_run_parts line run E)
      as (_ & _ & _ & _ & _ & _ & _ & _ & Hrun).
    split; intros H.
    + injection H as <-. do 2 f_equal. exact Hrun.
    + injection H as ->. do 2 f_equal.
      exact (drop_last_n_app g ENCRYPTED_SUFFIX).
  - split; discriminate.
Qed.

Lemma encrypted_patterns_agree_witness :
  re_match encrypted_pattern_of_decrypt
    (encrypted_line (lit "FOO") (hex (lit "Abar")) APP_KEY
       (hex (lit "s3cr3t-k3y")) (lit "2024-06-18 10:00:00"))
  = Some [lit "FOO" ++ ENCRYPTED_SUFFIX].
Proof.
  apply (proj1 (encrypted_patterns_agree
                  (encrypted_line (lit "FOO") (hex (lit "Abar")) APP_KEY
                     (hex (lit "s3cr3t-k3y")) (lit "2024-06-18 10:00:00"))
                  (lit "FOO"))).
  vm_compute. reflexivity.
Defined.

Lemma readlines_nil content : readlines content = [] -> content = [].
Proof.
  destruct content as [|c s]; [reflexivity|].
  unfold readlines. cbn [universal_newlines].
  destruct (Ascii.eqb c CR).
  - cbn [split_keepends]. change (Ascii.eqb LF LF) with true. discriminate.
  - cbn [split_keepends]. destruct (Ascii.eqb c LF); [discriminate|].
    destruct (split_keepends (universal_newlines s)); discriminate.
Qed.

Lemma encrypt_lines_ends {W : Collaborators} E mke key lines :
  forall count,
  fst (encrypt_lines E mke key lines count)
  = Returned (count + length (filter (is_fresh E) lines)) \/
  (fst (encrypt_lines E mke key lines count) = Exited 1 /\
   exists line name value k,
     In line lines /\ classify E line = Fresh name value /\
     encrypt_value k value key = None).
Proof.
  induction lines as [|l ls IH]; intros count; cbn [encrypt_lines].
  - left. cbn. f_equal. lia.
  - assert (Hrest : forall chunk count',
               count' + length (filter (is_fresh E) ls)
               = count + length (filter (is_fresh E) (l :: ls)) ->
               fst (written chunk (encrypt_lines E mke key ls count'))
               = Returned (count + length (filter (is_fresh E) (l :: ls))) \/
               (fst (written chunk (encrypt_lines E mke key ls count'))
                = Exited 1 /\
                exists line name value k,
                  In line (l :: ls) /\ classify E line = Fresh name value /\
                  encrypt_value k value key = None)).
    { intros chunk count' Hc. unfold written. cbn [fst].
      destruct (IH count') as [Hr|(Hx & line & name & value & k & Hin & Hf)].
      - left. now rewrite Hr, Hc.
      - right. split; [assumption|].
        exists line, name, value, k. split; [now right | assumption]. }
    rewrite encrypt_line_classify.
    destruct (classify E l) as [|name|name value] eqn:Hcl.
    + apply Hrest. cbn [filter]. unfold is_fresh at 2. now rewrite Hcl.
    + apply Hrest. cbn [filter]. unfold is_fresh at 2. now rewrite Hcl.
    + destruct (encrypt_value count value key) eqn:Hv.
      * apply Hrest. cbn [filter]. unfold is_fresh at 2. rewrite Hcl.
        cbn [length]. lia.
      * right. split; [reflexivity|].
        exists l, name, value, count. split; [now left | now split].
Qed.

(** X9.  How [encrypt_secrets] ends: on an empty file it raises
    [IndexError] and leaves the file empty; on any other file it either
    returns the number of lines that the pass treats as secrets to encrypt,
    or exits with status 1, and then the cipher has failed on one of those
    secrets. *)
Theorem encrypt_secrets_ends (W : Collaborators)
  (content mke : text) (mk : option text) :
  let key := if truthy mk then mk else getenv mke in
  let E := collect_encrypted_bases (readlines content) (empty_set text) in
  (content = [] -> encrypt_secrets content mke mk = (Raised IndexError, [])) /\
  (content <> [] ->
   fst (encrypt_secrets content mke mk)
   = Returned (length (filter (is_fresh E) (readlines content))) \/
   (fst (encrypt_secrets content mke mk) = Exited 1 /\
    exists line name value k,
      In line (readlines content) /\ classify E line = Fresh name value /\
      encrypt_value k value key = None)).
Proof.
  intros key E. split.
  - intros ->. reflexivity.
  - intros Hne. unfold encrypt_secrets. fold key E.
    destruct (readlines content) as [|first rest] eqn:El.
    { now apply readlines_nil in El. }
    cbn [header_chunk].
    assert (Hf : forall h r, fst (@written nat h r) = fst r) by reflexivity.
    destruct (text_eqb (strip first) HEADER_DISCLAIMER); rewrite Hf;
      apply (encrypt_lines_ends E mke key (first :: rest) 0).
Qed.

Lemma encrypt_secrets_ends_witness :
  fst (encrypt_secrets (W := sample) mixed_file APP_KEY None)
  = Returned
      (length
         (filter
            (is_fresh
               (collect_encrypted_bases (readlines mixed_file)
                  (empty_set text)))
            (readlines mixed_file))) \/
  (fst (encrypt_secrets (W := sample) mixed_file APP_KEY None) = Exited 1 /\
   exists line name value k,
     In line (readlines mixed_file) /\
     classify (collect_encrypted_bases (readlines mixed_file) (empty_set text))
       line = Fresh name value /\
     @encrypt_value sample k value (@getenv sample APP_KEY) = None).
Proof.
  apply (encrypt_secrets_ends sample mixed_file APP_KEY None). discriminate.
Defined.

Lemma decrypt_lines_app {W : Collaborators} E' key pre rest r w :
  decrypt_lines E' key pre = (Returned r, w) ->
  decrypt_lines E' key (pre ++ rest)
  = written w (decrypt_lines E' key rest).
Proof.
  revert w. induction pre as [|l pre IH]; intros w; simpl.
  - intros H; inversion H; subst. unfold written.
    now destruct (decrypt_lines E' key rest).
  - destruct (decrypt_line E' key l) as [chunk u|code|e];
      [|discriminate|discriminate].
    destruct (decrypt_lines E' key pre) as [r' w'] eqn:Hp.
    unfold written at 1. simpl. intros H; inversion H; subst r' w.
    rewrite (IH w' eq_refl). unfold written. simpl.
    now rewrite app_assoc.
Qed.

(** X10.  When the cipher cannot read the value of an [_ENCRYPTED] line,
    [decrypt_secrets] raises and the file is left truncated: it holds what
    the pass wrote for the lines before that line; the line and the lines
    after it are not written. *)
Theorem decrypt_secrets_failure_truncates (W : Collaborators)
  (content mke : text) (mk : option text) (key : text) (pre : list text)
  (line : text) (post : list text) (w : text) (m : list text) :
  let E' := collect_encrypted_names (readlines content) (empty_set text) in
  getenv mke = Some key -> key <> [] ->
  readlines content = pre ++ line :: post ->
  decrypt_lines E' key pre = (Returned Rewritten, w) ->
  comment_or_blank line = false ->
  re_search secret_pattern line = Some m ->
  endswith ENCRYPTED_SUFFIX (group m 1) = true ->
  decrypt_value (group m 2) key = None ->
  decrypt_secrets content mke mk = (Raised CryptoError, w).
Proof.
  intros E' Hk Hne Hl Hpre Hcb Hm Hs Hv. unfold decrypt_secrets.
  rewrite Hk. destruct key as [|k key]; [congruence|].
  fold E'. rewrite Hl.
  rewrite (decrypt_lines_app E' (k :: key) pre _ Rewritten w Hpre).
  cbn [decrypt_lines]. unfold decrypt_line.
  unfold comment_or_blank in Hcb. rewrite Hcb, Hm.
  rewrite (suffix_name_not_key_declaration _ Hs), Hs.
  cbn [negb andb]. rewrite Hv.
  unfold written. cbn [fst snd]. now rewrite app_nil_r.
Qed.

Lemma decrypt_secrets_failure_truncates_witness :
  decrypt_secrets (W := sample) damaged_file APP_KEY None
  = (Raised CryptoError,
     key_declaration ++ assignment_line (lit "A") (lit "x")).
Proof.
  apply (decrypt_secrets_failure_truncates sample damaged_file APP_KEY None
           (lit "s3cr3t-k3y")
           [key_declaration; assignment_line (lit "A") (lit "x")]
           (encrypted_line (lit "FOO") (lit "zz") APP_KEY
              (hex (lit "s3cr3t-k3y")) (lit "2024-06-18 10:00:00"))
           [assignment_line (lit "B") (lit "y")]
           (key_declaration ++ assignment_line (lit "A") (lit "x"))
           [lit "FOO_ENCRYPTED"; lit "zz"]).
  - reflexivity.
  - discriminate.
  - vm_compute. reflexivity.
  - vm_compute. reflexivity.
  - vm_compute. reflexivity.
  - vm_compute. reflexivity.
  - vm_compute. reflexivity.
  - vm_compute. reflexivity.
Defined.

Lemma get_master_key_exits {W : Collaborators} env_variable :
  truthy env_variable = false \/
  truthy (getenv (format_value env_variable)) = false ->
  get_master_key env_variable = Exited 1.
Proof.
  unfold get_master_key. destruct env_variable as [[|c name]|];
    cbn [truthy format_value]; intros [H|H]; try discriminate H;
    try reflexivity.
  destruct (getenv (c :: name)) as [[|k key]|]; try reflexivity.
  discriminate H.
Qed.

(** X11.  [main] does not touch the file when it cannot resolve the key:
    without [-m], on a file that imports and declares [MASTER_KEY_ENV], if
    the declared name is empty or [None] or the variable of that name is
    unset or empty, the file is left as it is, and a run that asks for
    encryption, decryption or conversion (without [-k] and [-l]) ends with
    exit status 1. *)
Theorem main_without_key_keeps_file (W : Collaborators) (T : Runtime)
  (args : arguments) (content : text) (env_variable : option text) :
  truthy (arg_master_key_env args) = false ->
  import_config content = Some (Value env_variable) ->
  truthy env_variable = false \/
  truthy (getenv (format_value env_variable)) = false ->
  snd (main args content) = content /\
  (arg_key args = false -> arg_list args = false ->
   arg_encrypt args = true \/ arg_decrypt args = true \/
   arg_convert args <> None ->
   fst (main args content) = SysExit 1).
Proof.
  intros Hm Hi Hk. unfold main, load_config_file. rewrite Hi, Hm.
  pose proof (get_master_key_exits env_variable Hk) as Hg.
  unfold with_master_key. rewrite Hg.
  destruct (arg_key args), (arg_list args), (arg_encrypt args),
    (arg_decrypt args), (arg_convert args) as [[old new]|];
    cbn [fst snd]; (split; [reflexivity|]); intros Hk' Hl' He;
    try discriminate; try reflexivity.
  destruct He as [He|[He|He]]; try discriminate. congruence.
Qed.

Lemma main_without_key_keeps_file_witness :
  snd (main (W := sample) (T := sample_runtime) encrypt_arguments
         unset_key_file) = unset_key_file /\
  fst (main (W := sample) (T := sample_runtime) encrypt_arguments
         unset_key_file) = SysExit 1.
Proof.
  destruct (main_without_key_keeps_file sample sample_runtime
              encrypt_arguments unset_key_file (Some UNSET_KEY))
    as [Hs He].
  - reflexivity.
  - vm_compute. reflexivity.
  - right. reflexivity.
  - split; [exact Hs|]. apply He; [reflexivity | reflexivity |].
    left. reflexivity.
Defined.
(* ================================================================== *)
(** ** [decrypt_secrets] on a file without encrypted secrets, and the
       listing after [encrypt_secrets] *)

Lemma plain_line_no_encrypted_run l : plain_line l -> encrypted_run l = None.
Proof.
  intros [Hc | (n & v & -> & Hid & Hs & _ & _)].
  - destruct (encrypted_run l) as [run|] eqn:E; [|reflexivity].
    apply encrypted_run_not_comment in E. congruence.
  - apply encrypted_run_assignment_line; [|assumption].
    now apply identifier_words.
Qed.

Lemma decrypt_line_plain {W : Collaborators} E' key l :
  (forall g, ~ set_In g E') -> plain_line l ->
  decrypt_line E' key l = Wrote l tt.
Proof.
  intros HE [Hc | (n & v & -> & Hid & Hs & Hq & Hv)].
  - now apply decrypt_line_comment.
  - rewrite decrypt_line_search
      by (unfold assignment_line; now apply comment_or_blank_identifier).
    rewrite (search_assignment_line n v Hid Hq (no_newline_contains_LF v Hv)).
    destruct (text_eqb n MASTER_KEY_ENV); [reflexivity|].
    rewrite Hs. cbn [negb andb].
    destruct (set_mem text_eq_dec (n ++ ENCRYPTED_SUFFIX) E') eqn:Em;
      [|reflexivity].
    apply set_mem_correct1 in Em. now apply HE in Em.
Qed.

Lemma decrypt_lines_plain {W : Collaborators} E' key lines :
  (forall g, ~ set_In g E') -> Forall plain_line lines ->
  decrypt_lines E' key lines = (Returned Rewritten, concat lines).
Proof.
  intros HE. induction 1 as [|l ls Hl Hls IH]; [reflexivity|].
  cbn [decrypt_lines concat]. rewrite (decrypt_line_plain E' key l HE Hl), IH.
  reflexivity.
Qed.

(** X12.  [decrypt_secrets] leaves a file without encrypted secrets as it
    is: when the key variable is set, the file holds no carriage return and
    every line is a comment, a blank line or of the form [name = "value"]
    (an identifier that does not end in [_ENCRYPTED], a value without
    quotes), the pass returns and the content is unchanged. *)
Theorem decrypt_secrets_plain_file (W : Collaborators)
  (content mke : text) (mk : option text) (key : text) :
  getenv mke = Some key -> key <> [] ->
  no_cr content = true ->
  Forall plain_line (readlines content) ->
  decrypt_secrets content mke mk = (Returned Rewritten, content).
Proof.
  intros Hk Hne Hcr Hp. unfold decrypt_secrets. rewrite Hk.
  destruct key as [|k key]; [congruence|].
  rewrite decrypt_lines_plain; [| |assumption].
  - now rewrite concat_readlines.
  - intros g Hg.
    apply collect_encrypted_names_In in Hg as [[]|(l & Hl & Hr)].
    rewrite Forall_forall in Hp.
    rewrite (plain_line_no_encrypted_run l (Hp l Hl)) in Hr. discriminate.
Qed.

Lemma decrypt_secrets_plain_file_witness :
  decrypt_secrets (W := sample) plain_file APP_KEY None
  = (Returned Rewritten, plain_file).
Proof.
  apply (decrypt_secrets_plain_file sample plain_file APP_KEY None
           (lit "s3cr3t-k3y")).
  - reflexivity.
  - discriminate.
  - reflexivity.
  - replace (readlines plain_file)
      with [lit "# project secrets" ++ [LF]; [LF]; key_declaration;
            assignment_line (lit "A") (lit "x");
            assignment_line (lit "B") (lit "y")]
      by (vm_compute; reflexivity).
    repeat (constructor;
            [first [ left; reflexivity
                   | right; eexists; eexists;
                     split; [reflexivity | repeat split; reflexivity] ]|]).
    constructor.
Defined.

Lemma list_line_assignment_line n v :
  is_identifier n = true -> list_line (assignment_line n v) = [n].
Proof.
  intros Hid. rewrite list_line_name.
  assert (Hc : comment_or_blank (assignment_line n v) = false)
    by (unfold assignment_line; now apply comment_or_blank_identifier).
  rewrite Hc. f_equal. rewrite assignment_line_shape.
  now apply (named_line_parts [] n [" "%char]);
    [reflexivity | reflexivity | apply identifier_words].
Qed.

Lemma identifier_suffixed n :
  is_identifier n = true -> is_identifier (n ++ ENCRYPTED_SUFFIX) = true.
Proof.
  destruct n as [|c r]; [discriminate|]. cbn [is_identifier app].
  intros H. apply andb_true_iff in H as [Hc Hr].
  now rewrite Hc, forallb_app, Hr.
Qed.

Lemma list_line_encrypted_line n c mke sig dt :
  is_identifier n = true ->
  list_line (encrypted_line n c mke sig dt) = [n ++ ENCRYPTED_SUFFIX].
Proof.
  intros Hid. pose proof (identifier_suffixed n Hid) as Hs.
  rewrite list_line_name.
  assert (Hc : comment_or_blank (encrypted_line n c mke sig dt) = false).
  { unfold encrypted_line. rewrite app_assoc.
    now apply comment_or_blank_identifier. }
  rewrite Hc. f_equal. rewrite encrypted_line_shape.
  now apply (named_line_parts [] (n ++ ENCRYPTED_SUFFIX) [" "%char]);
    [reflexivity | reflexivity | apply identifier_words].
Qed.

Lemma classify_not_comment E line :
  classify E line <> Keep -> comment_or_blank line = false.
Proof.
  unfold classify. destruct (comment_or_blank line); [|reflexivity].
  cbn [orb]. congruence.
Qed.

Section Listing.

Context {W : Collaborators}.

Variables (E : set text) (mke : text) (key : option text).

Hypothesis HE : forall g, set_In g E -> is_identifier g = true.

(** The listing of what a pass writes holds the listing of what it read and
    the suffixed name of every secret it encrypted. *)
Lemma listing_rewritten_lines lines :
  forall count n,
  all_lines (encrypts_cleanly E key) E lines count = true ->
  fst (encrypt_lines E mke key lines count) = Returned n ->
  let L' := rewritten_lines E mke key lines count in
  (forall name, In name (flat_map list_line lines) ->
                In name (flat_map list_line L')) /\
  (forall line name value,
      In line lines -> classify E line = Fresh name value ->
      In (name ++ ENCRYPTED_SUFFIX) (flat_map list_line L')).
Proof.
  induction lines as [|line rest IH]; intros count n Hc Hr;
    cbn [rewritten_lines].
  - split; [tauto | intros ? ? ? []].
  - cbn [all_lines encrypt_lines] in Hc, Hr.
    apply andb_true_iff in Hc as [Hc Hcr].
    rewrite encrypt_line_classify in Hr.
    unfold encrypts_cleanly in Hc. unfold count_after in Hcr.
    pose proof (classify_names E line) as Hnames.
    pose proof (classify_not_comment E line) as Hnc.
    destruct (classify E line) as [|name|name value] eqn:Hcl.
    + destruct (IH count n Hcr Hr) as (I1 & I2). cbv zeta. split.
      * intros x Hx. cbn [flat_map] in *. apply in_app_iff in Hx.
        apply in_app_iff. destruct Hx; [now left | right; now apply I1].
      * intros l x v [<-|Hl] Hf; [congruence|].
        cbn [flat_map]. apply in_app_iff. right. now apply (I2 l x v).
    + destruct Hnames as (Hn & _ & _ & Hin).
      destruct (IH count n Hcr Hr) as (I1 & I2). cbv zeta.
      pose proof (HE _ Hin) as Hid. split.
      * intros x Hx. cbn [flat_map] in *.
        rewrite list_line_assignment_line by assumption.
        rewrite list_line_name, Hnc, <- Hn in Hx by discriminate.
        destruct Hx as [<-|Hx]; [now left | right; now apply I1].
      * intros l x v [<-|Hl] Hf; [congruence|].
        cbn [flat_map]. apply in_app_iff. right. now apply (I2 l x v).
    + destruct Hnames as (Hn & _ & _ & _ & _).
      destruct (encrypt_value count value key) as [c|]; [|discriminate].
      apply andb_true_iff in Hc as [Hid _].
      destruct (IH (S count) n Hcr Hr) as (I1 & I2). cbv zeta.
      cbn [flat_map].
      rewrite list_line_assignment_line, list_line_encrypted_line
        by assumption.
      split.
      * intros x Hx. cbn [flat_map] in Hx.
        rewrite list_line_name, Hnc, <- Hn in Hx by discriminate.
        destruct Hx as [<-|Hx]; [now left | right; right; now apply I1].
      * intros l x v [<-|Hl] Hf.
        -- rewrite Hcl in Hf. injection Hf as <- <-. right. now left.
        -- right. right. now apply (I2 l x v).
Qed.

End Listing.

(** X13.  [encrypt_secrets] loses no name: when the pass returns, every
    line it encrypted has an identifier as its name, and the cipher text,
    the key-variable name, the signature suffix and the timestamps hold no
    line break, [list_secrets] prints afterwards every name that it printed
    before, and [name_ENCRYPTED] for every secret [name] that the pass
    encrypted. *)
Theorem encrypt_secrets_keeps_listing (W : Collaborators)
  (content mke : text) (mk : option text) (n : nat) (out : text) :
  let key := if truthy mk then mk else getenv mke in
  let lines := readlines content in
  let E := collect_encrypted_bases lines (empty_set text) in
  no_newline mke = true ->
  no_newline (last_n 8 (signature_of key)) = true ->
  (forall k, no_newline (now k) = true) ->
  all_lines (encrypts_cleanly E key) E lines 0 = true ->
  encrypt_secrets content mke mk = (Returned n, out) ->
  (forall name, In name (list_secrets content) -> In name (list_secrets out)) /\
  (forall line name value,
      In line lines -> classify E line = Fresh name value ->
      In (name ++ ENCRYPTED_SUFFIX) (list_secrets out)).
Proof.
  intros key lines E Hmke Hsig Hnow Hclean Hrun.
  unfold encrypt_secrets in Hrun. fold key lines E in Hrun.
  destruct (header_chunk lines) as [hdr|] eqn:Hh; [|discriminate].
  pose proof (encrypt_lines_written E mke key lines 0) as Hw.
  destruct (encrypt_lines E mke key lines 0) as [r w] eqn:Hl.
  unfold written in Hrun. cbn [fst snd] in Hrun, Hw.
  inversion Hrun; subst r out; clear Hrun.
  assert (HE : forall g, set_In g E -> is_identifier g = true).
  { intros g Hg. apply collect_encrypted_bases_In in Hg as [[]|(l & _ & Hg)].
    now apply encrypted_base_identifier in Hg. }
  assert (Hfst : fst (encrypt_lines E mke key lines 0) = Returned n)
    by now rewrite Hl.
  destruct (rewritten_lines_settled E mke key HE Hmke Hsig Hnow lines 0 n
              (readlines_proper content) Hclean Hfst) as (I1 & _ & _).
  destruct (listing_rewritten_lines E mke key HE lines 0 n Hclean Hfst)
    as (J1 & J2).
  set (L' := rewritten_lines E mke key lines 0) in *.
  assert (Hout : forall x, In x (flat_map list_line L') ->
                           In x (list_secrets (hdr ++ w))).
  { intros x Hx. unfold list_secrets. rewrite Hw.
    destruct lines as [|first rest] eqn:Elines; [discriminate|].
    cbn [header_chunk] in Hh.
    destruct (text_eqb (strip first) HEADER_DISCLAIMER);
      inversion Hh; subst hdr; clear Hh.
    - cbn [app]. now rewrite (readlines_concat L' I1).
    - assert (Hrc : proper_lines ((HEADER_DISCLAIMER ++ [LF]) :: L'))
        by now constructor.
      apply readlines_concat in Hrc. cbn [concat] in Hrc.
      change (In x (flat_map list_line
                      (readlines ((HEADER_DISCLAIMER ++ [LF]) ++ concat L')))).
      rewrite Hrc.
      cbn [flat_map]. apply in_app_iff. now right. }
  split.
  - intros name Hname. apply Hout, J1. exact Hname.
  - intros line name value Hin Hf. apply Hout. now apply (J2 line name value).
Qed.

Lemma encrypt_secrets_keeps_listing_witness :
  (forall name, In name (list_secrets mixed_file) ->
                In name (list_secrets
                           (snd (encrypt_secrets (W := sample) mixed_file
                                   APP_KEY None)))) /\
  (forall line name value,
      In line (readlines mixed_file) ->
      classify (collect_encrypted_bases (readlines mixed_file) (empty_set text))
        line = Fresh name value ->
      In (name ++ ENCRYPTED_SUFFIX)
         (list_secrets
            (snd (encrypt_secrets (W := sample) mixed_file APP_KEY None)))).
Proof.
  apply (encrypt_secrets_keeps_listing sample mixed_file APP_KEY None 1
           (snd (encrypt_secrets (W := sample) mixed_file APP_KEY None))).
  - reflexivity.
  - vm_compute. reflexivity.
  - intros k. reflexivity.
  - vm_compute. reflexivity.
  - vm_compute. reflexivity.
Defined.
(* ================================================================== *)
(** ** The runs of [main] that leave the file alone, the way
       [decrypt_secrets] ends, and lines without a declaration in the
       listing *)

(** X14.  Without [-m], [main] leaves the file as it is whenever [-k] or
    [-l] is given, or neither [-e] nor [-d] is, or the file cannot be
    imported, or it declares no [MASTER_KEY_ENV]: the file is rewritten only
    by [set_master_key], [encrypt_secrets] and [decrypt_secrets]. *)
Theorem main_keeps_file (W : Collaborators) (T : Runtime)
  (args : arguments) (content : text) :
  truthy (arg_master_key_env args) = false ->
  arg_key args = true \/ arg_list args = true \/
  (arg_encrypt args = false /\ arg_decrypt args = false) \/
  import_config content = None \/ import_config content = Some Missing ->
  snd (main args content) = content.
Proof.
  intros Hm H. unfold main, load_config_file, with_master_key, finish,
    convert_secrets.
  rewrite Hm.
  destruct (import_config content) as [[|v]|]; [| |reflexivity].
  - destruct (arg_key args), (arg_list args), (arg_encrypt args),
      (arg_decrypt args), (arg_convert args) as [[old new]|]; reflexivity.
  - destruct (arg_key args); [reflexivity|].
    destruct (arg_list args); [reflexivity|].
    destruct H as [H|[H|[[He Hd]|[H|H]]]]; try discriminate H.
    rewrite He, Hd.
    destruct (arg_convert args) as [[old new]|]; [|reflexivity].
    destruct (get_master_key v); reflexivity.
Qed.

Lemma main_keeps_file_witness :
  snd (main (W := sample) (T := sample_runtime) encrypt_arguments two_secrets)
  = two_secrets.
Proof.
  apply (main_keeps_file sample sample_runtime encrypt_arguments two_secrets).
  - reflexivity.
  - right. right. right. right. vm_compute. reflexivity.
Defined.

Lemma decrypt_lines_ends {W : Collaborators} E' key lines :
  match fst (decrypt_lines E' key lines) with
  | Returned r => r = Rewritten
  | Exited _ => False
  | Raised e =>
      e = CryptoError /\
      exists line m,
        In line lines /\ comment_or_blank line = false /\
        re_search secret_pattern line = Some m /\
        endswith ENCRYPTED_SUFFIX (group m 1) = true /\
        decrypt_value (group m 2) key = None
  end.
Proof.
  induction lines as [|l ls IH]; [reflexivity|].
  assert (Hrest : forall chunk,
             match fst (written chunk (decrypt_lines E' key ls)) with
             | Returned r => r = Rewritten
             | Exited _ => False
             | Raised e =>
                 e = CryptoError /\
                 exists line m,
                   In line (l :: ls) /\ comment_or_blank line = false /\
                   re_search secret_pattern line = Some m /\
                   endswith ENCRYPTED_SUFFIX (group m 1) = true /\
                   decrypt_value (group m 2) key = None
             end).
  { intros chunk. unfold written. cbn [fst].
    destruct (fst (decrypt_lines E' key ls)) as [r|code|e]; try assumption.
    destruct IH as (He & line & m & Hin & Hrest). split; [assumption|].
    exists line, m. split; [now right | assumption]. }
  cbn [decrypt_lines]. unfold decrypt_line.
  fold (comment_or_blank l).
  destruct (comment_or_blank l) eqn:Hc; [apply Hrest|].
  destruct (re_search secret_pattern l) as [m|] eqn:Hm; [|apply Hrest].
  destruct (text_eqb (group m 1) MASTER_KEY_ENV); [apply Hrest|].
  destruct (negb (endswith ENCRYPTED_SUFFIX (group m 1))
            && negb (set_mem text_eq_dec (group m 1 ++ ENCRYPTED_SUFFIX) E'));
    [apply Hrest|].
  destruct (endswith ENCRYPTED_SUFFIX (group m 1)) eqn:Hs; [|apply Hrest].
  destruct (decrypt_value (group m 2) key) eqn:Hv; [apply Hrest|].
  cbn [fst]. split; [reflexivity|].
  exists l, m. repeat split; try assumption. now left.
Qed.

(** X15.  How [decrypt_secrets] ends: it never exits, and it raises only
    when the key variable is set and some line that is no comment holds an
    assignment to a name ending in [_ENCRYPTED] whose value the cipher
    cannot read under the key. *)
Theorem decrypt_secrets_ends (W : Collaborators)
  (content mke : text) (mk : option text) :
  (forall code, fst (decrypt_secrets content mke mk) <> Exited code) /\
  (forall e,
      fst (decrypt_secrets content mke mk) = Raised e ->
      e = CryptoError /\
      exists key line m,
        getenv mke = Some key /\
        In line (readlines content) /\ comment_or_blank line = false /\
        re_search secret_pattern line = Some m /\
        endswith ENCRYPTED_SUFFIX (group m 1) = true /\
        decrypt_value (group m 2) key = None).
Proof.
  unfold decrypt_secrets.
  destruct (getenv mke) as [[|k key]|] eqn:Hk;
    try (split; [intros code | intros e]; discriminate).
  pose proof (decrypt_lines_ends
                (collect_encrypted_names (readlines content) (empty_set text))
                (k :: key) (readlines content)) as H.
  destruct (fst (decrypt_lines _ (k :: key) (readlines content)))
    as [r|code|e]; [split; [intros c | intros e]; discriminate
                   | contradiction |].
  split; [intros c; discriminate|].
  intros e' He. injection He as <-.
  destruct H as (He & line & m & H). split; [assumption|].
  exists (k :: key), line, m. split; [reflexivity | assumption].
Qed.

Lemma decrypt_secrets_ends_witness :
  exists key line m,
    @getenv sample APP_KEY = Some key /\
    In line (readlines damaged_file) /\ comment_or_blank line = false /\
    re_search secret_pattern line = Some m /\
    endswith ENCRYPTED_SUFFIX (group m 1) = true /\
    @decrypt_value sample (group m 2) key = None.
Proof.
  apply (proj2 (decrypt_secrets_ends sample damaged_file APP_KEY None)
           CryptoError).
  vm_compute. reflexivity.
Defined.

Lemma split_eq_head_without_equals line :
  contains equals line = false -> split_eq_head line = line.
Proof.
  intros H. unfold split_eq_head.
  rewrite <- (takewhile_dropwhile not_equals line) at 2.
  destruct (dropwhile not_equals line) as [|c r] eqn:E.
  - now rewrite app_nil_r.
  - exfalso. pose proof (dropwhile_head _ _ _ _ E) as Hc.
    rewrite <- (takewhile_dropwhile not_equals line), E, contains_app in H.
    apply orb_false_iff in H as [_ H].
    unfold not_equals in Hc. apply negb_false_iff in Hc.
    apply Ascii.eqb_eq in Hc. subst c.
    revert H. unfold contains. cbn [existsb].
    now rewrite Ascii.eqb_refl.
Qed.

(** X16.  [list_secrets] prints every line that is neither a comment nor
    blank, also one that declares nothing: a line without ["="] is printed
    whole, stripped of surrounding white space. *)
Theorem list_secrets_prints_undeclared_line (content line : text) :
  In line (readlines content) ->
  comment_or_blank line = false ->
  contains equals line = false ->
  In (strip line) (list_secrets content).
Proof.
  intros Hin Hc He. unfold list_secrets. apply in_flat_map.
  exists line. split; [assumption|].
  rewrite list_line_name, Hc. unfold secret_name_of.
  rewrite (split_eq_head_without_equals line He). now left.
Qed.

Lemma list_secrets_prints_undeclared_line_witness :
  In (lit "remember to rotate") (list_secrets odd_file).
Proof.
  apply (list_secrets_prints_undeclared_line odd_file
           (lit "remember to rotate" ++ [LF])).
  - vm_compute. right. left. reflexivity.
  - reflexivity.
  - reflexivity.
Defined.
